(** * Group.ts (webamp-modern-2 skin engine): the container object

    A shallow embedding of [packages/webamp-modern-2/src/skin/Group.ts] and
    the properties its specification states about it.

    The class [Group] extends [GuiObj]; it owns an ordered array of child
    [GuiObj]s and an ordered array of [SystemObject]s.  Code that lives in
    other files of the repository ([GuiObj], [SystemObject], [Utils],
    [UI_ROOT], the DOM) is reached through an explicit interface
    ([Collaborators]) so that every statement below holds for whatever
    those files do. *)

From Stdlib Require Import String Ascii List Bool Arith Lia DecimalString.
Import ListNotations.
Local Open Scope string_scope.
Local Open Scope list_scope.

(** ** JavaScript strings *)

(** A double quote, for the template literal of [getobject]. *)
Definition dquote : string := String (ascii_of_nat 34) EmptyString.

Definition is_ascii (c : ascii) : bool := Nat.ltb (nat_of_ascii c) 128.

Definition is_upper (c : ascii) : bool :=
  Nat.leb 65 (nat_of_ascii c) && Nat.leb (nat_of_ascii c) 90.

Definition lower_char (c : ascii) : ascii :=
  if is_upper c then ascii_of_nat (nat_of_ascii c + 32) else c.

Fixpoint string_forall (p : ascii -> bool) (s : string) : bool :=
  match s with
  | EmptyString => true
  | String c s' => p c && string_forall p s'
  end.

Fixpoint string_map (f : ascii -> ascii) (s : string) : string :=
  match s with
  | EmptyString => EmptyString
  | String c s' => String (f c) (string_map f s')
  end.

(** [Array.prototype.join]: [undefined] elements are rendered as the empty
    string. *)
Fixpoint join (sep : string) (l : list (option string)) : string :=
  match l with
  | [] => EmptyString
  | [x] => match x with Some s => s | None => EmptyString end
  | x :: rest =>
      (match x with Some s => s | None => EmptyString end) ++ sep ++ join sep rest
  end.

(** Interpolation [${v}] inside a template literal. *)
Definition interpolate (v : option string) : string :=
  match v with
  | Some s => s
  | None => "undefined"
  end.

(** [a || b] on values that are a string or [undefined]: the empty string and
    [undefined] are falsy. *)
Definition js_or (a b : option string) : option string :=
  match a with
  | Some EmptyString => b
  | Some s => Some s
  | None => b
  end.

(** [a === b] where [a] may be [undefined] and [b] is a string. *)
Definition strict_eq (a : option string) (b : string) : bool :=
  match a with
  | Some s => String.eqb s b
  | None => false
  end.

(** [if (x)] on a value that is a boolean or [undefined]. *)
Definition truthy (b : option bool) : bool :=
  match b with
  | Some true => true
  | _ => false
  end.

(** ** Outcomes of a call *)

(** [new Error(message)]. *)
Inductive exn : Type := Error (message : string).

(** A call returns a value, throws, or is cut off: [OutOfFuel] stands for a
    run that did not end within the fuel it was given. *)
Inductive outcome (A : Type) : Type :=
| Ok (a : A)
| Throw (e : exn)
| OutOfFuel.
Arguments Ok {A} a.
Arguments Throw {A} e.
Arguments OutOfFuel {A}.

(** ** The monad of methods: store, exceptions and the calls made

    A method runs on a store [St]; it returns, throws or runs out of fuel, and
    leaves the store it reached and the list of calls [C] it made.  What was
    written before an exception stays written. *)

Definition M (St C A : Type) : Type := St -> outcome A * St * list C.

Definition mret {St C A : Type} (a : A) : M St C A := fun st => (Ok a, st, []).

Definition bind {St C A B : Type} (m : M St C A) (f : A -> M St C B) : M St C B :=
  fun st =>
    match m st with
    | (Ok a, st1, t1) =>
        match f a st1 with
        | (r, st2, t2) => (r, st2, t1 ++ t2)
        end
    | (Throw e, st1, t1) => (Throw e, st1, t1)
    | (OutOfFuel, st1, t1) => (OutOfFuel, st1, t1)
    end.

Definition throw {St C A : Type} (e : exn) : M St C A :=
  fun st => (Throw e, st, []).

(** The result of a pure function that may reject its argument. *)
Definition pure {St C A : Type} (r : exn + A) : M St C A :=
  match r with
  | inl e => throw e
  | inr a => mret a
  end.

(** What a run returned, the store it reached, and the calls it made. *)
Definition result {St C A : Type} (r : outcome A * St * list C) : outcome A :=
  fst (fst r).
Definition final {St C A : Type} (r : outcome A * St * list C) : St :=
  snd (fst r).
Definition trace {St C A : Type} (r : outcome A * St * list C) : list C :=
  snd r.

Declare Scope method_scope.
Delimit Scope method_scope with method.
Notation "x <- m ;; k" := (bind m (fun x => k))
  (at level 61, m at next level, right associativity) : method_scope.
Notation "m ;; k" := (bind m (fun _ => k))
  (at level 61, right associativity) : method_scope.

(** [for (const x of arr) body] where [arr] is a field of a live object: the
    array iterator reads the array again at every step, so elements pushed
    by [body] are visited too.  One unit of fuel per iteration. *)
Fixpoint for_of {St C A : Type} (fuel : nat) (arr : St -> list A) (i : nat)
    (body : A -> M St C unit) : M St C unit :=
  fun st =>
    match nth_error (arr st) i with
    | None => (Ok tt, st, [])
    | Some x =>
        match fuel with
        | O => (OutOfFuel, st, [])
        | S fuel' => bind (body x) (fun _ => for_of fuel' arr (S i) body) st
        end
    end.

(** [try { body } finally { finalizer }]: the finalizer runs once the body
    has returned or thrown; when it returns, the outcome of the body stands;
    when it throws, its exception replaces that outcome.  A body that does
    not end never reaches it. *)
Definition try_finally {St C A : Type} (body : M St C A)
    (finalizer : M St C unit) : M St C A :=
  fun st =>
    match body st with
    | (OutOfFuel, st1, t1) => (OutOfFuel, st1, t1)
    | (r, st1, t1) =>
        match finalizer st1 with
        | (Ok _, st2, t2) => (r, st2, t1 ++ t2)
        | (Throw e, st2, t2) => (Throw e, st2, t1 ++ t2)
        | (OutOfFuel, st2, t2) => (OutOfFuel, st2, t1 ++ t2)
        end
    end.

(** ** Objects *)

(** Types that [Group.ts] only passes around. *)
Class Types : Type := {
  number : Type;       (* what [Utils.num] returns *)
  Bitmap : Type;       (* what [UI_ROOT.getBitmap] returns *)
  Div : Type;          (* DOM elements *)
  SkinContext : Type;  (* the argument of [init] *)
  World : Type         (* the DOM and every object that is not a Group or a SystemObject *)
}.

(** Object references.  A reference to a [GuiObj] carries the class of the
    object it points to: [getId], [init] and [draw] are dispatched on it. *)
Definition ref := nat.

Inductive gui_ref : Type :=
| RGroup (r : ref)    (* an instance of [Group] *)
| ROther (r : ref).   (* an instance of another subclass of [GuiObj] *)

Section Model.
Context {T : Types}.

Record Group : Type := mkGroup {
  (* inherited from GuiObj *)
  _id : option string;
  _div : Div;
  (* declared by Group; a field that was never assigned is undefined *)
  _instanceId : option string;
  _background : option string;
  _desktopAlpha : option bool;
  _drawBackground : option bool;
  _minimumHeight : option number;
  _maximumHeight : option number;
  _minimumWidth : option number;
  _maximumWidth : option number;
  _systemObjects : list ref;
  _children : list gui_ref
}.

(** Field assignments [this._field = v]. *)
Definition set_instanceId (v : option string) (g : Group) : Group :=
  mkGroup (_id g) (_div g) v (_background g) (_desktopAlpha g)
    (_drawBackground g) (_minimumHeight g) (_maximumHeight g)
    (_minimumWidth g) (_maximumWidth g) (_systemObjects g) (_children g).

Definition set_background (v : option string) (g : Group) : Group :=
  mkGroup (_id g) (_div g) (_instanceId g) v (_desktopAlpha g)
    (_drawBackground g) (_minimumHeight g) (_maximumHeight g)
    (_minimumWidth g) (_maximumWidth g) (_systemObjects g) (_children g).

Definition set_drawBackground (v : option bool) (g : Group) : Group :=
  mkGroup (_id g) (_div g) (_instanceId g) (_background g) (_desktopAlpha g)
    v (_minimumHeight g) (_maximumHeight g)
    (_minimumWidth g) (_maximumWidth g) (_systemObjects g) (_children g).

Definition set_minimumHeight (v : option number) (g : Group) : Group :=
  mkGroup (_id g) (_div g) (_instanceId g) (_background g) (_desktopAlpha g)
    (_drawBackground g) v (_maximumHeight g)
    (_minimumWidth g) (_maximumWidth g) (_systemObjects g) (_children g).

Definition set_maximumHeight (v : option number) (g : Group) : Group :=
  mkGroup (_id g) (_div g) (_instanceId g) (_background g) (_desktopAlpha g)
    (_drawBackground g) (_minimumHeight g) v
    (_minimumWidth g) (_maximumWidth g) (_systemObjects g) (_children g).

Definition set_minimumWidth (v : option number) (g : Group) : Group :=
  mkGroup (_id g) (_div g) (_instanceId g) (_background g) (_desktopAlpha g)
    (_drawBackground g) (_minimumHeight g) (_maximumHeight g)
    v (_maximumWidth g) (_systemObjects g) (_children g).

Definition set_maximumWidth (v : option number) (g : Group) : Group :=
  mkGroup (_id g) (_div g) (_instanceId g) (_background g) (_desktopAlpha g)
    (_drawBackground g) (_minimumHeight g) (_maximumHeight g)
    (_minimumWidth g) v (_systemObjects g) (_children g).

(** [this._systemObjects.push(x)] and [this._children.push(x)]. *)
Definition push_systemObject (x : ref) (g : Group) : Group :=
  mkGroup (_id g) (_div g) (_instanceId g) (_background g) (_desktopAlpha g)
    (_drawBackground g) (_minimumHeight g) (_maximumHeight g)
    (_minimumWidth g) (_maximumWidth g) (_systemObjects g ++ [x]) (_children g).

Definition push_child (x : gui_ref) (g : Group) : Group :=
  mkGroup (_id g) (_div g) (_instanceId g) (_background g) (_desktopAlpha g)
    (_drawBackground g) (_minimumHeight g) (_maximumHeight g)
    (_minimumWidth g) (_maximumWidth g) (_systemObjects g) (_children g ++ [x]).

(** Modelled from the spec: [SystemObject.ts] is not among the sources.  The
    spec gives a System Object one field that matters here, the back-reference
    to its owning container, written by [setParentGroup]. *)
Record SystemObject : Type := mkSystemObject {
  _parentGroup : option ref
}.

(** The store.  References always denote an object, so the store is total. *)
Record State : Type := mkState {
  groups : ref -> Group;
  sysobjs : ref -> SystemObject;
  world : World
}.

(** Calls that leave [Group.ts]: methods of the base class, virtual methods of
    children and system objects, the DOM and [UI_ROOT]. *)
Inductive call : Type :=
| SuperSetXmlAttr (this : ref) (key value : string)
| SuperDraw (this : ref)
| SysInit (systemObject : ref) (context : SkinContext)
| ChildInit (child : gui_ref) (context : SkinContext)
| ChildDraw (child : gui_ref)
| ChildGetDiv (child : gui_ref)
| DivSetAttribute (div : Div) (name value : string)
| StyleSet (div : Div) (property value : string)
| AppendChild (div child : Div)
| GetBitmap (id : string)
| GetBackgrondCSSAttribute (bitmap : Bitmap).

(** What each call returns. *)
Definition ret (c : call) : Type :=
  match c with
  | SuperSetXmlAttr _ _ _ => bool
  | ChildGetDiv _ => Div
  | GetBitmap _ => Bitmap
  | GetBackgrondCSSAttribute _ => string
  | _ => unit
  end.

Inductive event : Type :=
| Called (c : call) (r : outcome (ret c)).

(** The code outside [Group.ts].  [ext] gives every call its behaviour on the
    whole store: a callee may write anywhere, throw, or not return.  The
    functions of [Utils] are pure; [toBool] and [num] may reject a value. *)
Class Collaborators : Type := {
  unicode_lower : string -> string;
  toBool : string -> exn + bool;
  num : string -> exn + number;
  px : option number -> string;
  GuiObj_getId : ref -> World -> option string;
  ext : forall c : call, State -> outcome (ret c) * State
}.

Context {E : Collaborators}.

(** [String.prototype.toLowerCase].  On a string of ASCII characters it maps
    A..Z to a..z; what it does to any other string is left to
    [unicode_lower]. *)
Definition toLowerCase (s : string) : string :=
  if string_forall is_ascii s then string_map lower_char s
  else unicode_lower s.

(** The trace of a method: the calls that left the file, in order, each with
    what it returned. *)
Definition Method (A : Type) : Type := M State event A.

Definition external (c : call) : Method (ret c) :=
  fun st => match ext c st with (r, st') => (r, st', [Called c r]) end.

(** [this] as it is now. *)
Definition read (this : ref) : Method Group :=
  fun st => (Ok (groups st this), st, []).

(** An assignment to a field of [this]. *)
Definition assign (this : ref) (f : Group -> Group) : Method unit :=
  fun st =>
    (Ok tt,
     mkState (fun r => if Nat.eqb r this then f (groups st r) else groups st r)
             (sysobjs st) (world st),
     []).

Local Open Scope method_scope.

(** ** The methods of Group *)

(** The [switch] of [setXmlAttr], reached when the base class did not handle
    the key. *)
Definition setXmlAttr_own (this : ref) (key value : string) : Method bool :=
  if key =? "instance_id" then
    assign this (set_instanceId (Some value)) ;; mret true
  else if key =? "background" then
    assign this (set_background (Some value)) ;; mret true
  else if key =? "drawbackground" then
    b <- pure (toBool value) ;;
    assign this (set_drawBackground (Some b)) ;; mret true
  else if key =? "minimum_h" then
    n <- pure (num value) ;;
    assign this (set_minimumHeight (Some n)) ;; mret true
  else if key =? "minimum_w" then
    n <- pure (num value) ;;
    assign this (set_minimumWidth (Some n)) ;; mret true
  else if key =? "maximum_h" then
    n <- pure (num value) ;;
    assign this (set_maximumHeight (Some n)) ;; mret true
  else if key =? "maximum_w" then
    n <- pure (num value) ;;
    assign this (set_maximumWidth (Some n)) ;; mret true
  else
    mret false.

Definition setXmlAttr (this : ref) (_key value : string) : Method bool :=
  let key := toLowerCase _key in
  handled <- external (SuperSetXmlAttr this key value) ;;
  if (handled : bool) then mret true
  else setXmlAttr_own this key value.

Definition init (fuel : nat) (this : ref) (context : SkinContext) : Method unit :=
  for_of fuel (fun st => _systemObjects (groups st this)) 0
    (fun systemObject => external (SysInit systemObject context)) ;;
  for_of fuel (fun st => _children (groups st this)) 0
    (fun child => external (ChildInit child context)).

(** [this._instanceId || this._id] *)
Definition getId (g : Group) : option string :=
  js_or (_instanceId g) (_id g).

(** [obj.getId()] on a [GuiObj]: [Group] overrides the method; for the other
    classes it is a getter of code that is not in this file. *)
Definition getId_of (st : State) (obj : gui_ref) : option string :=
  match obj with
  | RGroup r => getId (groups st r)
  | ROther r => GuiObj_getId r (world st)
  end.

(** Modelled from the spec: [SystemObject.setParentGroup] is not among the
    sources; the spec has it store the back-reference to the container. *)
Definition setParentGroup (systemObj group : ref) : Method unit :=
  fun st =>
    (Ok tt,
     mkState (groups st)
             (fun r => if Nat.eqb r systemObj then mkSystemObject (Some group)
                       else sysobjs st r)
             (world st),
     []).

Definition addSystemObject (this systemObj : ref) : Method unit :=
  setParentGroup systemObj this ;;
  assign this (push_systemObject systemObj).

Definition addChild (this : ref) (child : gui_ref) : Method unit :=
  assign this (push_child child).

(** The loop of [getobject]: the first child whose id is [lower]. *)
Fixpoint getobject_loop (st : State) (lower : string) (children : list gui_ref)
    : option gui_ref :=
  match children with
  | [] => None
  | obj :: rest =>
      if strict_eq (getId_of st obj) lower then Some obj
      else getobject_loop st lower rest
  end.

Definition getobject_message (st : State) (this : ref) (objectId : string)
    : string :=
  let foundIds := join ", " (map (getId_of st) (_children (groups st this))) in
  "Could not find an object with the id: " ++ dquote ++ objectId ++ dquote
  ++ " within object " ++ dquote ++ interpolate (getId (groups st this))
  ++ dquote ++ ". Only found: " ++ foundIds.

Definition getobject (this : ref) (objectId : string) : Method gui_ref :=
  fun st =>
    let lower := toLowerCase objectId in
    match getobject_loop st lower (_children (groups st this)) with
    | Some obj => (Ok obj, st, [])
    | None => (Throw (Error (getobject_message st this objectId)), st, [])
    end.

(** The body of the loop of [draw]. *)
Definition draw_child (this : ref) (child : gui_ref) : Method unit :=
  external (ChildDraw child) ;;
  g <- read this ;;
  div <- external (ChildGetDiv child) ;;
  external (AppendChild (_div g) div).

(** The [if] statement of [draw]. *)
Definition draw_background (this : ref) : Method unit :=
  g <- read this ;;
  match _background g with
  | Some background =>
      if truthy (_drawBackground g) then
        bitmap <- external (GetBitmap background) ;;
        g <- read this ;;
        css <- external (GetBackgrondCSSAttribute bitmap) ;;
        external (StyleSet (_div g) "background" css)
      else mret tt
  | None => mret tt
  end.

Definition draw (fuel : nat) (this : ref) : Method unit :=
  external (SuperDraw this) ;;
  g <- read this ;;
  external (DivSetAttribute (_div g) "data-obj-name" "Group") ;;
  g <- read this ;;
  external (StyleSet (_div g) "height" (px (_maximumHeight g))) ;;
  g <- read this ;;
  external (StyleSet (_div g) "width" (px (_maximumWidth g))) ;;
  draw_background this ;;
  for_of fuel (fun st => _children (groups st this)) 0 (draw_child this).

(** ** Vocabulary of the statements *)

(** The keys of the table of attributes that the Container recognizes. *)
Definition own_keys : list string :=
  ["instance_id"; "background"; "drawbackground";
   "minimum_h"; "minimum_w"; "maximum_h"; "maximum_w"].

Definition recognized (key : string) : bool :=
  existsb (String.eqb key) own_keys.

(** [Utils] accepts the value [v] for the key [K]. *)
Definition coercible (K v : string) : Prop :=
  (K = "drawbackground" -> exists b, toBool v = inr b) /\
  (In K ["minimum_h"; "minimum_w"; "maximum_h"; "maximum_w"] ->
   exists n, num v = inr n).

(** The field that the key [K] names holds the coerced value of [v]. *)
Definition holds_coerced (K v : string) (g : Group) : Prop :=
  (K = "instance_id" -> _instanceId g = Some v) /\
  (K = "background" -> _background g = Some v) /\
  (K = "drawbackground" ->
   exists b, toBool v = inr b /\ _drawBackground g = Some b) /\
  (K = "minimum_h" -> exists n, num v = inr n /\ _minimumHeight g = Some n) /\
  (K = "minimum_w" -> exists n, num v = inr n /\ _minimumWidth g = Some n) /\
  (K = "maximum_h" -> exists n, num v = inr n /\ _maximumHeight g = Some n) /\
  (K = "maximum_w" -> exists n, num v = inr n /\ _maximumWidth g = Some n).

(** The call [c] returns, whatever the store, and leaves the fields of the
    container [this] as they were. *)
Definition quiet (this : ref) (c : call) : Prop :=
  forall st, exists r st',
    ext c st = (Ok r, st') /\ groups st' this = groups st this.

(** The [appendChild] calls of a trace, as pairs (parent, child). *)
Definition append_of (e : event) : list (Div * Div) :=
  match e with
  | Called (AppendChild d h) _ => [(d, h)]
  | _ => []
  end.

Definition appends (t : list event) : list (Div * Div) :=
  flat_map append_of t.

(** The calls that compose the background: the query of the Resource
    Provider, the read of the CSS value and the assignment of
    [style.background]. *)
Definition is_background_call (e : event) : bool :=
  match e with
  | Called (GetBitmap _) _ => true
  | Called (GetBackgrondCSSAttribute _) _ => true
  | Called (StyleSet _ property _) _ => property =? "background"
  | _ => false
  end.

(** The background calls that [draw] makes while the container is [g]:
    none, or the query of the bitmap, the read of its CSS value and the
    assignment of that value. *)
Definition background_calls (g : Group) (bg : list event) : Prop :=
  match _background g with
  | Some background =>
      if truthy (_drawBackground g) then
        exists bitmap css,
          bg = [Called (GetBitmap background) (Ok bitmap);
                Called (GetBackgrondCSSAttribute bitmap) (Ok css);
                Called (StyleSet (_div g) "background" css) (Ok tt)]
      else bg = []
  | None => bg = []
  end.

(** The calls that [draw] can make. *)
Definition made_by_draw (c : call) : bool :=
  match c with
  | SuperSetXmlAttr _ _ _ => false
  | SysInit _ _ => false
  | ChildInit _ _ => false
  | _ => true
  end.

(** The turn of a child in the loop of [draw]: the child is drawn, its
    element is asked for, and the element [h] it answered is appended to the
    element [d] of the container. *)
Definition turn (d : Div) (p : gui_ref * Div) : list event :=
  [Called (ChildDraw (fst p)) (Ok tt);
   Called (ChildGetDiv (fst p)) (Ok (snd p));
   Called (AppendChild d (snd p)) (Ok tt)].

(** The calls of a child's turn in the loop of [draw]. *)
Definition is_child_call (e : event) : bool :=
  match e with
  | Called (ChildDraw _) _ => true
  | Called (ChildGetDiv _) _ => true
  | Called (AppendChild _ _) _ => true
  | _ => false
  end.

(** Every back-reference of a system object points to a container that
    lists the object. *)
Definition back_refs_listed (st : State) : Prop :=
  forall s g, _parentGroup (sysobjs st s) = Some g ->
              In s (_systemObjects (groups st g)).

(** The assignments to [style] in a trace, as (element, property, value). *)
Definition style_of (e : event) : list (Div * string * string) :=
  match e with
  | Called (StyleSet d property value) _ => [(d, property, value)]
  | _ => []
  end.

Definition styles (t : list event) : list (Div * string * string) :=
  flat_map style_of t.

(** The [init] calls of a trace on children. *)
Definition is_child_init (e : event) : bool :=
  match e with
  | Called (ChildInit _ _) _ => true
  | _ => false
  end.

(** No character of the string is one of A..Z. *)
Definition no_upper (s : string) : bool :=
  string_forall (fun c => negb (is_upper c)) s.

End Model.

(** ** A small skin to run the methods on

    Numbers are natural numbers, a bitmap is its id, DOM elements are
    numbered, and the world counts the calls it has served.  The base class
    recognizes the key [id] only and stores the value in lowercase. *)
Module Demo.

Definition types : Types :=
  {| number := nat; Bitmap := string; Div := nat; SkinContext := nat;
     World := nat |}.
#[local] Existing Instance types.

Definition served (st : State) : State :=
  mkState (groups st) (sysobjs st) (S (world st)).

Definition set_id (v : option string) (g : Group) : Group :=
  mkGroup v (_div g) (_instanceId g) (_background g) (_desktopAlpha g)
    (_drawBackground g) (_minimumHeight g) (_maximumHeight g)
    (_minimumWidth g) (_maximumWidth g) (_systemObjects g) (_children g).

Definition demo_toBool (s : string) : exn + bool :=
  if s =? "1" then inr true
  else if s =? "0" then inr false
  else inl (Error "Expected bool value to be 0 or 1").

Definition demo_num (s : string) : exn + nat :=
  match NilEmpty.uint_of_string s with
  | Some u => inr (Nat.of_uint u)
  | None => inl (Error "not a number")
  end.

Definition demo_px (n : option nat) : string :=
  match n with
  | Some n => NilEmpty.string_of_uint (Nat.to_uint n) ++ "px"
  | None => EmptyString
  end.

(** The ids of the objects that are not groups. *)
Definition demo_getId (r : ref) (w : nat) : option string :=
  match r with
  | 1 => Some "play"
  | 2 => Some "stop"
  | 4 => Some "deep"
  | 5 => Some "Mixed"
  | _ => None
  end.

Definition demo_div (st : State) (obj : gui_ref) : nat :=
  match obj with
  | RGroup r => _div (groups st r)
  | ROther r => 100 + r
  end.

Definition demo_ext (c : call) (st : State) : outcome (ret c) * State :=
  match c as c0 return outcome (ret c0) * State with
  | SuperSetXmlAttr this key value =>
      if key =? "id" then
        (Ok true,
         served (mkState
           (fun r => if Nat.eqb r this
                     then set_id (Some (string_map lower_char value)) (groups st r)
                     else groups st r)
           (sysobjs st) (world st)))
      else (Ok false, served st)
  | SuperDraw _ => (Ok tt, served st)
  | SysInit _ _ => (Ok tt, served st)
  | ChildInit _ _ => (Ok tt, served st)
  | ChildDraw _ => (Ok tt, served st)
  | ChildGetDiv child => (Ok (demo_div st child), served st)
  | DivSetAttribute _ _ _ => (Ok tt, served st)
  | StyleSet _ _ _ => (Ok tt, served st)
  | AppendChild _ _ => (Ok tt, served st)
  | GetBitmap id => (Ok id, served st)
  | GetBackgrondCSSAttribute bitmap => (Ok ("url(" ++ bitmap ++ ")")%string, served st)
  end.

Definition collaborators : Collaborators :=
  {| unicode_lower := fun s => s;
     toBool := demo_toBool;
     num := demo_num;
     px := demo_px;
     GuiObj_getId := demo_getId;
     ext := demo_ext |}.
#[local] Existing Instance collaborators.

Definition blank (div : nat) : Group :=
  mkGroup None div None None None None None None None None [] [].

(** Group 0 ([main]) has the children play, stop and group 3, and the system
    objects 7 and 8; group 3 ([panel]) has the child deep; group 6 has three
    children whose id is stop; the children of group 9 have ids with a
    capital, one of them the instance id of group 11; group 12 has a
    background, a size and one child. *)
Definition demo_groups (r : ref) : Group :=
  match r with
  | 0 => mkGroup (Some "main") 0 None None None None None None None None
           [7; 8] [ROther 1; ROther 2; RGroup 3]
  | 3 => mkGroup (Some "panel") 3 None None None None None None None None
           [] [ROther 4]
  | 6 => mkGroup None 6 None None None None None None None None
           [] [ROther 1; ROther 2; RGroup 10; ROther 2]
  | 9 => mkGroup (Some "nine") 9 (Some "Nine") None None None None None None None
           [] [ROther 5; RGroup 11]
  | 10 => mkGroup (Some "other") 10 (Some "stop") None None None None None None None
           [] []
  | 11 => mkGroup (Some "eleven") 11 (Some "Deck") None None None None None None None
           [] []
  | 12 => mkGroup (Some "skinned") 12 None (Some "bg.png") None (Some true)
           None (Some 50) None (Some 200) [] [ROther 1]
  | _ => blank r
  end.

Definition st0 : State :=
  mkState demo_groups (fun _ => mkSystemObject None) 0.

End Demo.

(** ** The small skin with failing collaborators

    As [Demo], but the [init] of system object 8 and the [draw] of the
    object 2 throw. *)
Module Faulty.
Import Demo.
#[local] Existing Instance Demo.types.

Definition faulty_ext (c : call) (st : State) : outcome (ret c) * State :=
  match c as c0 return outcome (ret c0) * State with
  | SysInit s context =>
      if Nat.eqb s 8 then (Throw (Error "init failed"), served st)
      else demo_ext (SysInit s context) st
  | ChildDraw (ROther r) =>
      if Nat.eqb r 2 then (Throw (Error "draw failed"), served st)
      else demo_ext (ChildDraw (ROther r)) st
  | c' => demo_ext c' st
  end.

Definition collaborators : Collaborators :=
  {| unicode_lower := fun s => s;
     toBool := demo_toBool;
     num := demo_num;
     px := demo_px;
     GuiObj_getId := demo_getId;
     ext := faulty_ext |}.

End Faulty.

(** * cli.ts: the command line of the skin database

    The commands of [packages/skin-database/cli.ts] are asynchronous
    functions that await one promise after the other; an awaited promise
    that rejects throws.  They are embedded in the same monad: every function
    of another module is a call, recorded with what it returned. *)
Module Cli.

Class Types : Type := {
  Handler : Type;   (* DiscordEventHandler *)
  Client : Type;    (* Discord.Client *)
  World : Type      (* the database, the network, the services *)
}.

Section Model.
Context {T : Types}.

Inductive call : Type :=
| NewDiscordEventHandler
| Dispose (handler : Handler)
| NewDiscordClient
| Login (client : Client) (token : string)
| Destroy (client : Client)
| Tweet (client : Client) (md5 : option string)
| Insta (client : Client) (md5 : option string)
| ScrapeLikeData
| PopularTweets (handler : Handler)
| FollowerCount (handler : Handler)
| ProcessUserUploads (handler : Handler)
| ReprocessFailedUploads (handler : Handler)
| IntegrityCheck
| CheckInternetArchiveMetadata
| ParseAsync
| KnexDestroy
| LoggerClose.

Definition ret (c : call) : Type :=
  match c with
  | NewDiscordEventHandler => Handler
  | NewDiscordClient => Client
  | _ => unit
  end.

Inductive event : Type :=
| Called (c : call) (r : outcome (ret c)).

(** The other modules: what each call does to the world and returns, and
    the token of [config]. *)
Class Externals : Type := {
  discordToken : string;
  ext : forall c : call, World -> outcome (ret c) * World
}.

Context {E : Externals}.

Definition Command (A : Type) : Type := M World event A.

Definition external (c : call) : Command (ret c) :=
  fun w => match ext c w with (r, w') => (r, w', [Called c r]) end.

Local Open Scope method_scope.

Definition withHandler (cb : Handler -> Command unit) : Command unit :=
  handler <- external NewDiscordEventHandler ;;
  try_finally (cb handler) (external (Dispose handler)).

Definition withDiscordClient (cb : Client -> Command unit) : Command unit :=
  client <- external NewDiscordClient ;;
  external (Login client discordToken) ;;
  try_finally (cb client) (external (Destroy client)).

(** The action of the command [share]. *)
Definition share (md5 : option string) (twitter instagram : option bool)
    : Command unit :=
  if negb (truthy twitter) && negb (truthy instagram) then
    throw (Error "Expected at least one of --twitter or --instagram")
  else
    withDiscordClient (fun client =>
      (if truthy twitter then external (Tweet client md5) else mret tt) ;;
      (if truthy instagram then external (Insta client md5) else mret tt)).

(** The action of the command [process-uploads]. *)
Definition process_uploads (errored : option bool) : Command unit :=
  withHandler (fun handler =>
    if negb (truthy errored) then external (ProcessUserUploads handler)
    else external (ReprocessFailedUploads handler)).

(** The action of the command [integrity-check]. *)
Definition integrity_check (ia : option bool) : Command unit :=
  if truthy ia then external CheckInternetArchiveMetadata
  else external IntegrityCheck.

(** The action of the command [scrape-twitter]. *)
Definition scrape_twitter (likes milestones followers : option bool)
    : Command unit :=
  (if truthy likes then external ScrapeLikeData else mret tt) ;;
  (if truthy milestones
   then withHandler (fun handler => external (PopularTweets handler))
   else mret tt) ;;
  (if truthy followers
   then withHandler (fun handler => external (FollowerCount handler))
   else mret tt).

Definition main : Command unit :=
  try_finally (external ParseAsync)
    (external KnexDestroy ;; external LoggerClose).

(** The handlers a trace created and the handlers it disposed of. *)
Definition created_of (e : event) : list Handler :=
  match e with
  | Called NewDiscordEventHandler (Ok h) => [h]
  | _ => []
  end.

Definition disposed_of (e : event) : list Handler :=
  match e with
  | Called (Dispose h) _ => [h]
  | _ => []
  end.

Definition created (t : list event) : list Handler := flat_map created_of t.
Definition disposed (t : list event) : list Handler := flat_map disposed_of t.

(** The calls of a trace, without what they returned. *)
Definition call_of (e : event) : call :=
  match e with Called c _ => c end.

End Model.

(** A run of the commands: handlers and clients are numbered by the world,
    and sharing the skin [bad] on Twitter fails. *)
Module Demo.

Definition types : Types :=
  {| Handler := nat; Client := nat; World := nat |}.
#[local] Existing Instance types.

Definition demo_ext (c : call) (w : nat) : outcome (ret c) * nat :=
  match c as c0 return outcome (ret c0) * nat with
  | NewDiscordEventHandler => (Ok w, S w)
  | NewDiscordClient => (Ok w, S w)
  | Tweet _ (Some "bad") => (Throw (Error "tweet failed"), S w)
  | ParseAsync => (Throw (Error "unknown command"), S w)
  | Dispose _ => (Ok tt, S w)
  | Login _ _ => (Ok tt, S w)
  | Destroy _ => (Ok tt, S w)
  | Tweet _ _ => (Ok tt, S w)
  | Insta _ _ => (Ok tt, S w)
  | ScrapeLikeData => (Ok tt, S w)
  | PopularTweets _ => (Ok tt, S w)
  | FollowerCount _ => (Ok tt, S w)
  | ProcessUserUploads _ => (Ok tt, S w)
  | ReprocessFailedUploads _ => (Ok tt, S w)
  | IntegrityCheck => (Ok tt, S w)
  | CheckInternetArchiveMetadata => (Ok tt, S w)
  | KnexDestroy => (Ok tt, S w)
  | LoggerClose => (Ok tt, S w)
  end.

Definition externals : Externals :=
  {| discordToken := "token"; ext := demo_ext |}.

End Demo.

End Cli.

(** * Properties *)

Section Properties.
Context {T : Types} {E : Collaborators}.
Local Open Scope method_scope.

(** ** The monad *)

Lemma external_ok (c : call) st r st' :
  ext c st = (Ok r, st') ->
  external c st = (Ok r, st', [Called c (Ok r)]).
Proof. intros H. unfold external. rewrite H. reflexivity. Qed.

(** ** Strings *)

Lemma strict_eq_true (a : option string) (b : string) :
  strict_eq a b = true <-> a = Some b.
Proof.
  destruct a as [s|]; simpl.
  - rewrite String.eqb_eq. split; congruence.
  - split; discriminate.
Qed.

Lemma strict_eq_false (a : option string) (b : string) :
  strict_eq a b = false <-> a <> Some b.
Proof.
  rewrite <- strict_eq_true. destruct (strict_eq a b); split; congruence.
Qed.

(** ** getobject *)

Lemma getobject_loop_first st lower l obj :
  getobject_loop st lower l = Some obj <->
  exists before after,
    l = before ++ obj :: after /\
    getId_of st obj = Some lower /\
    (forall o, In o before -> getId_of st o <> Some lower).
Proof.
  induction l as [|x l IH]; simpl.
  - split; [discriminate|].
    intros (before & after & Hl & _). destruct before; discriminate.
  - destruct (strict_eq (getId_of st x) lower) eqn:Hx.
    + apply strict_eq_true in Hx. split.
      * intros [= <-]. exists [], l. repeat split; auto.
      * intros (before & after & Hl & Hobj & Hbefore).
        destruct before as [|y before]; simpl in Hl.
        -- congruence.
        -- injection Hl as <- _. exfalso.
           apply (Hbefore x); simpl; auto.
    + apply strict_eq_false in Hx. rewrite IH. split.
      * intros (before & after & Hl & Hobj & Hbefore).
        exists (x :: before), after. subst l. repeat split; auto.
        intros o [<-|Ho]; auto.
      * intros (before & after & Hl & Hobj & Hbefore).
        destruct before as [|y before]; simpl in Hl.
        -- injection Hl as -> _. contradiction.
        -- injection Hl as <- ->. exists before, after.
           repeat split; auto. intros o Ho. apply Hbefore. simpl; auto.
Qed.

Lemma getobject_loop_none st lower l :
  getobject_loop st lower l = None <->
  (forall o, In o l -> getId_of st o <> Some lower).
Proof.
  induction l as [|x l IH]; simpl.
  - split; auto.
  - destruct (strict_eq (getId_of st x) lower) eqn:Hx.
    + apply strict_eq_true in Hx. split; [discriminate|].
      intros H. exfalso. apply (H x); auto.
    + apply strict_eq_false in Hx. rewrite IH. split.
      * intros H o [<-|Ho]; auto.
      * intros H o Ho. apply H. auto.
Qed.

Lemma getobject_loop_agree st st' lower l obj :
  (forall o, In o l -> getId_of st' o = getId_of st o) ->
  getobject_loop st' lower l = Some obj <-> getobject_loop st lower l = Some obj.
Proof.
  induction l as [|x l IH]; simpl; intros Hids.
  - reflexivity.
  - rewrite (Hids x) by auto.
    destruct (strict_eq (getId_of st x) lower); [reflexivity|].
    apply IH. intros o Ho. apply Hids. auto.
Qed.

Lemma getobject_ok this objectId st obj :
  result (getobject this objectId st) = Ok obj <->
  getobject_loop st (toLowerCase objectId) (_children (groups st this)) = Some obj.
Proof.
  unfold getobject, result.
  destruct (getobject_loop st (toLowerCase objectId) (_children (groups st this)));
    simpl; split; congruence.
Qed.

(** What [getobject] does.  It is a linear scan of the direct children of the
    container: it returns [obj] exactly when [obj] is the first element of
    [_children] whose resolved id equals the query in lowercase.  Only the
    lowercase form of the query matters; nothing but [_children] and the ids
    of its elements is consulted (system objects and deeper descendants are
    not); and an object that is a child of a child, and not itself a direct
    child, is never returned. *)
Theorem getobject_scans_direct_children (this : ref) (objectId : string) (st : State) :
  (forall obj,
     result (getobject this objectId st) = Ok obj <->
     exists before after,
       _children (groups st this) = before ++ obj :: after /\
       getId_of st obj = Some (toLowerCase objectId) /\
       (forall o, In o before -> getId_of st o <> Some (toLowerCase objectId)))
  /\
  (forall other obj,
     toLowerCase other = toLowerCase objectId ->
     (result (getobject this other st) = Ok obj <->
      result (getobject this objectId st) = Ok obj))
  /\
  (forall st' obj,
     _children (groups st' this) = _children (groups st this) ->
     (forall o, In o (_children (groups st this)) ->
                getId_of st' o = getId_of st o) ->
     (result (getobject this objectId st') = Ok obj <->
      result (getobject this objectId st) = Ok obj))
  /\
  (forall middle deep,
     In (RGroup middle) (_children (groups st this)) ->
     In deep (_children (groups st middle)) ->
     ~ In deep (_children (groups st this)) ->
     result (getobject this objectId st) <> Ok deep).
Proof.
  split; [|split; [|split]].
  - intros obj. rewrite getobject_ok. apply getobject_loop_first.
  - intros other obj Heq. rewrite !getobject_ok, Heq. reflexivity.
  - intros st' obj Hch Hids. rewrite !getobject_ok, Hch.
    apply getobject_loop_agree. exact Hids.
  - intros middle deep _ _ Hnot Hret.
    apply getobject_ok, getobject_loop_first in Hret.
    destruct Hret as (before & after & Hl & _). apply Hnot.
    rewrite Hl. apply in_or_app. right. left. reflexivity.
Qed.


(** C10.  When several direct children have the id asked for, [getobject]
    returns the one that comes first in [_children]: the child at index [i]
    is returned as soon as it matches and no child at a smaller index does,
    whatever follows it. *)
Theorem getobject_earliest (this : ref) (objectId : string) (st : State)
    (i : nat) (obj : gui_ref) :
  nth_error (_children (groups st this)) i = Some obj ->
  getId_of st obj = Some (toLowerCase objectId) ->
  (forall j o, j < i -> nth_error (_children (groups st this)) j = Some o ->
               getId_of st o <> Some (toLowerCase objectId)) ->
  getobject this objectId st = (Ok obj, st, []).
Proof.
  intros Hnth Hobj Hbefore.
  assert (Hloop : getobject_loop st (toLowerCase objectId)
                    (_children (groups st this)) = Some obj).
  { apply getobject_loop_first.
    destruct (nth_error_split _ _ Hnth) as (before & after & Hl & Hlen).
    exists before, after. repeat split; auto.
    intros o Ho. destruct (In_nth_error _ _ Ho) as [j Hj].
    assert (Hlt : j < i).
    { rewrite <- Hlen. apply nth_error_Some. congruence. }
    apply (Hbefore j o Hlt). rewrite Hl.
    rewrite nth_error_app1; auto. rewrite Hlen. exact Hlt. }
  unfold getobject. rewrite Hloop. reflexivity.
Qed.

(** ** setXmlAttr *)

(** The [switch] on a key of the table: the field is assigned and the
    method answers [true]. *)
Lemma setXmlAttr_own_recognized this K v st :
  In K own_keys -> coercible K v ->
  exists st2,
    setXmlAttr_own this K v st = (Ok true, st2, []) /\
    holds_coerced K v (groups st2 this).
Proof.
  intros HK [Hbool Hnum]. unfold own_keys in HK. simpl in HK, Hnum.
  unfold holds_coerced.
  destruct HK as [<-|[<-|[<-|[<-|[<-|[<-|[<-|[]]]]]]]]; unfold setXmlAttr_own;
    simpl String.eqb; cbv iota.
  - eexists. split; [reflexivity|]. simpl. rewrite Nat.eqb_refl.
    repeat split; intros; try discriminate; reflexivity.
  - eexists. split; [reflexivity|]. simpl. rewrite Nat.eqb_refl.
    repeat split; intros; try discriminate; reflexivity.
  - destruct (Hbool eq_refl) as [b Hb]. rewrite Hb.
    eexists. split; [reflexivity|]. simpl. rewrite Nat.eqb_refl.
    repeat split; intros; try discriminate. exists b; auto.
  - destruct Hnum as [n Hn]; [auto|]. rewrite Hn.
    eexists. split; [reflexivity|]. simpl. rewrite Nat.eqb_refl.
    repeat split; intros; try discriminate. exists n; auto.
  - destruct Hnum as [n Hn]; [auto|]. rewrite Hn.
    eexists. split; [reflexivity|]. simpl. rewrite Nat.eqb_refl.
    repeat split; intros; try discriminate. exists n; auto.
  - destruct Hnum as [n Hn]; [auto|]. rewrite Hn.
    eexists. split; [reflexivity|]. simpl. rewrite Nat.eqb_refl.
    repeat split; intros; try discriminate. exists n; auto.
  - destruct Hnum as [n Hn]; [auto 6|]. rewrite Hn.
    eexists. split; [reflexivity|]. simpl. rewrite Nat.eqb_refl.
    repeat split; intros; try discriminate. exists n; auto.
Qed.

(** The [switch] on any other key: nothing is assigned, the answer is
    [false]. *)
Lemma setXmlAttr_own_default this key v st :
  ~ In key own_keys -> setXmlAttr_own this key v st = (Ok false, st, []).
Proof.
  intros Hnot. unfold setXmlAttr_own.
  repeat match goal with
  | |- context [String.eqb key ?k] =>
      destruct (String.eqb_spec key k) as [->|_];
      [exfalso; apply Hnot; unfold own_keys; simpl; auto 10|]
  end.
  reflexivity.
Qed.

(** When the [switch] answers, its answer says whether the key is in the
    table. *)
Lemma setXmlAttr_own_answer this key v st b st2 t :
  setXmlAttr_own this key v st = (Ok b, st2, t) -> b = recognized key.
Proof.
  unfold setXmlAttr_own, recognized, own_keys. simpl existsb.
  repeat match goal with
  | |- context [String.eqb key ?k] => destruct (String.eqb key k)
  end; simpl;
  try (destruct (toBool v)); try (destruct (num v)); simpl;
  intros H; inversion H; reflexivity.
Qed.

(** The [switch] makes no call that leaves the file. *)
Lemma setXmlAttr_own_silent this key v st :
  snd (setXmlAttr_own this key v st) = [].
Proof.
  unfold setXmlAttr_own.
  repeat match goal with
  | |- context [String.eqb key ?k] => destruct (String.eqb key k)
  end;
  try (destruct (toBool v)); try (destruct (num v)); reflexivity.
Qed.

Lemma setXmlAttr_unfold this key v st r st1 :
  ext (SuperSetXmlAttr this (toLowerCase key) v) st = (r, st1) ->
  setXmlAttr this key v st =
    match r with
    | Ok true =>
        (Ok true, st1, [Called (SuperSetXmlAttr this (toLowerCase key) v) r])
    | Ok false =>
        (result (setXmlAttr_own this (toLowerCase key) v st1),
         final (setXmlAttr_own this (toLowerCase key) v st1),
         Called (SuperSetXmlAttr this (toLowerCase key) v) r
           :: snd (setXmlAttr_own this (toLowerCase key) v st1))
    | Throw e =>
        (Throw e, st1, [Called (SuperSetXmlAttr this (toLowerCase key) v) r])
    | OutOfFuel =>
        (OutOfFuel, st1, [Called (SuperSetXmlAttr this (toLowerCase key) v) r])
    end.
Proof.
  intros Hext. unfold setXmlAttr, bind, external. rewrite Hext.
  destruct r as [[|]| |]; try reflexivity.
  destruct (setXmlAttr_own this (toLowerCase key) v st1) as [[r2 st2] t2].
  reflexivity.
Qed.

(** C3.  When the base class does not handle it, a key of the Container
    table is handled by [setXmlAttr]: the answer is [true] and the field the
    key names holds the value, as a raw string for [instance_id] and
    [background], as coerced by [Utils.toBool] for [drawbackground] and by
    [Utils.num] for the four size keys (given that [Utils] accepts the
    value).  A key that neither the base class nor the table recognizes is
    answered [false], and [Group.ts] assigns nothing: the fields of the
    container are as the base class left them, unchanged if it wrote
    none. *)
Theorem setXmlAttr_recognized_or_ignored (this : ref) :
  (forall key K v st st1,
     toLowerCase key = K ->
     In K own_keys ->
     ext (SuperSetXmlAttr this K v) st = (Ok false, st1) ->
     coercible K v ->
     exists st2,
       setXmlAttr this key v st =
         (Ok true, st2, [Called (SuperSetXmlAttr this K v) (Ok false)]) /\
       holds_coerced K v (groups st2 this))
  /\
  (forall key v st st1,
     ~ In (toLowerCase key) own_keys ->
     ext (SuperSetXmlAttr this (toLowerCase key) v) st = (Ok false, st1) ->
     groups st1 this = groups st this ->
     exists st2,
       setXmlAttr this key v st =
         (Ok false, st2,
          [Called (SuperSetXmlAttr this (toLowerCase key) v) (Ok false)]) /\
       st2 = st1 /\
       groups st2 this = groups st this).
Proof.
  split.
  - intros key K v st st1 <- HK Hext Hco.
    destruct (setXmlAttr_own_recognized this _ v st1 HK Hco) as (st2 & Hown & Hholds).
    exists st2. split; [|exact Hholds].
    rewrite (setXmlAttr_unfold _ _ _ _ _ _ Hext), Hown. reflexivity.
  - intros key v st st1 Hnot Hext Hsame.
    exists st1. repeat split; auto.
    rewrite (setXmlAttr_unfold _ _ _ _ _ _ Hext).
    rewrite (setXmlAttr_own_default this _ v st1 Hnot). reflexivity.
Qed.

Lemma recognized_in (K : string) : In K own_keys -> recognized K = true.
Proof.
  intros Hin. unfold recognized. apply existsb_exists.
  exists K. split; [exact Hin|apply String.eqb_refl].
Qed.

Lemma recognized_not_in (K : string) : ~ In K own_keys -> recognized K = false.
Proof.
  intros Hnot. destruct (recognized K) eqn:Hr; [|reflexivity].
  exfalso. apply Hnot. unfold recognized in Hr.
  apply existsb_exists in Hr. destruct Hr as (k & Hin & Heq).
  apply String.eqb_eq in Heq. subst k. exact Hin.
Qed.

(** C4.  [setXmlAttr] depends on its key through the lowercase form only;
    it calls the resolver of the base class first, with the lowercase key;
    when the base class answers [true] that is the answer and [Group.ts]
    assigns nothing, even for a key of its own table.  Whenever the base
    class answers and [Utils] accepts the value, [setXmlAttr] answers, and
    its answer is the disjunction of the answer of the base class and of
    membership of the lowercase key in the table; conversely every answer
    it gives is that disjunction.  In particular the keys [Background] and
    [background] behave alike. *)
Theorem setXmlAttr_chain (this : ref) (value : string) (st : State) :
  (forall key1 key2,
     toLowerCase key1 = toLowerCase key2 ->
     setXmlAttr this key1 value st = setXmlAttr this key2 value st)
  /\
  (forall key, exists r st1 rest,
     ext (SuperSetXmlAttr this (toLowerCase key) value) st = (r, st1) /\
     snd (setXmlAttr this key value st) =
       Called (SuperSetXmlAttr this (toLowerCase key) value) r :: rest /\
     Forall (fun e => match e with
                      | Called (SuperSetXmlAttr _ _ _) _ => False
                      | _ => True
                      end) rest)
  /\
  (forall key st1,
     ext (SuperSetXmlAttr this (toLowerCase key) value) st = (Ok true, st1) ->
     setXmlAttr this key value st =
       (Ok true, st1,
        [Called (SuperSetXmlAttr this (toLowerCase key) value) (Ok true)]))
  /\
  (forall key handled st1,
     ext (SuperSetXmlAttr this (toLowerCase key) value) st = (Ok handled, st1) ->
     coercible (toLowerCase key) value ->
     exists st2,
       setXmlAttr this key value st =
         (Ok (handled || recognized (toLowerCase key)), st2,
          [Called (SuperSetXmlAttr this (toLowerCase key) value) (Ok handled)]))
  /\
  (forall key b st2 t,
     setXmlAttr this key value st = (Ok b, st2, t) ->
     exists handled st1,
       ext (SuperSetXmlAttr this (toLowerCase key) value) st = (Ok handled, st1) /\
       b = handled || recognized (toLowerCase key))
  /\
  setXmlAttr this "Background" value st = setXmlAttr this "background" value st.
Proof.
  split; [|split; [|split; [|split; [|split]]]].
  - intros key1 key2 Heq. unfold setXmlAttr. rewrite Heq. reflexivity.
  - intros key.
    destruct (ext (SuperSetXmlAttr this (toLowerCase key) value) st)
      as [r st1] eqn:Hext.
    exists r, st1. rewrite (setXmlAttr_unfold _ _ _ _ _ _ Hext).
    destruct r as [[|]| |]; simpl;
      try (exists []; repeat split; auto; fail).
    rewrite setXmlAttr_own_silent. exists []. repeat split; auto.
  - intros key st1 Hext. rewrite (setXmlAttr_unfold _ _ _ _ _ _ Hext). reflexivity.
  - intros key handled st1 Hext Hco.
    rewrite (setXmlAttr_unfold _ _ _ _ _ _ Hext).
    destruct handled; [exists st1; reflexivity|].
    destruct (in_dec string_dec (toLowerCase key) own_keys) as [Hin|Hnot].
    + destruct (setXmlAttr_own_recognized this _ value st1 Hin Hco)
        as (st2 & Hown & _).
      exists st2. rewrite Hown, (recognized_in _ Hin). reflexivity.
    + exists st1.
      rewrite (setXmlAttr_own_default this _ value st1 Hnot),
        (recognized_not_in _ Hnot).
      reflexivity.
  - intros key b st2 t.
    destruct (ext (SuperSetXmlAttr this (toLowerCase key) value) st)
      as [r st1] eqn:Hext.
    rewrite (setXmlAttr_unfold _ _ _ _ _ _ Hext).
    destruct r as [[|]| |]; try discriminate.
    + intros [= <- _ _]. exists true, st1. auto.
    + intros H. exists false, st1. split; auto. simpl.
      destruct (setXmlAttr_own this (toLowerCase key) value st1)
        as [[r2 st3] t2] eqn:Hown.
      unfold result, final in H. simpl in H. injection H as -> _ _.
      apply (setXmlAttr_own_answer _ _ _ _ _ _ _ Hown).
  - unfold setXmlAttr. reflexivity.
Qed.

(** ** getId *)

(** C8, as the code has it.  [getId] answers the instance id when it is a
    non-empty string, and the declared id otherwise: when no instance id was
    ever assigned, and also when the empty string was.  The instance id is
    what the attribute [instance_id] assigned, as given. *)
Theorem getId_resolution (this : ref) :
  (forall g, _instanceId g = None -> getId g = _id g)
  /\
  (forall g, _instanceId g = Some EmptyString -> getId g = _id g)
  /\
  (forall g s, _instanceId g = Some s -> s <> EmptyString -> getId g = Some s)
  /\
  (forall key v st st1,
     toLowerCase key = "instance_id" ->
     ext (SuperSetXmlAttr this "instance_id" v) st = (Ok false, st1) ->
     result (setXmlAttr this key v st) = Ok true /\
     _instanceId (groups (final (setXmlAttr this key v st)) this) = Some v /\
     _id (groups (final (setXmlAttr this key v st)) this) =
       _id (groups st1 this) /\
     (v <> EmptyString ->
      getId (groups (final (setXmlAttr this key v st)) this) = Some v) /\
     (v = EmptyString ->
      getId (groups (final (setXmlAttr this key v st)) this) =
        _id (groups st1 this))).
Proof.
  split; [|split; [|split]].
  - intros g H. unfold getId. rewrite H. reflexivity.
  - intros g H. unfold getId. rewrite H. reflexivity.
  - intros g s H Hs. unfold getId. rewrite H.
    destruct s; [contradiction|reflexivity].
  - intros key v st st1 Hkey Hext.
    rewrite <- Hkey in Hext.
    rewrite (setXmlAttr_unfold _ _ _ _ _ _ Hext), Hkey.
    unfold setXmlAttr_own. simpl. rewrite Nat.eqb_refl.
    unfold getId. simpl. repeat split.
    + intros Hv. destruct v; [contradiction|reflexivity].
    + intros ->. reflexivity.
Qed.

(** ** addSystemObject and addChild *)

(** Both arrays grow at the end: the order of an array is the order in which
    its elements were attached. *)
Lemma addSystemObject_pushes (this systemObj : ref) (st : State) :
  _systemObjects (groups (final (addSystemObject this systemObj st)) this)
    = _systemObjects (groups st this) ++ [systemObj] /\
  _children (groups (final (addSystemObject this systemObj st)) this)
    = _children (groups st this).
Proof. simpl. rewrite Nat.eqb_refl. split; reflexivity. Qed.

Lemma addChild_pushes (this : ref) (child : gui_ref) (st : State) :
  _children (groups (final (addChild this child st)) this)
    = _children (groups st this) ++ [child] /\
  _systemObjects (groups (final (addChild this child st)) this)
    = _systemObjects (groups st this).
Proof. simpl. rewrite Nat.eqb_refl. split; reflexivity. Qed.

(** C9, as the code has it.  After a system object has been added to the
    container [A] and then to the container [B], its back-reference is [B],
    and it is an element of the list of system objects of [A] and of the
    list of [B]: nothing removes it from the first list. *)
Theorem addSystemObject_twice (A B systemObj : ref) (st : State) :
  let st2 :=
    final ((addSystemObject A systemObj ;; addSystemObject B systemObj) st) in
  result ((addSystemObject A systemObj ;; addSystemObject B systemObj) st)
    = Ok tt /\
  _parentGroup (sysobjs st2 systemObj) = Some B /\
  In systemObj (_systemObjects (groups st2 A)) /\
  In systemObj (_systemObjects (groups st2 B)).
Proof.
  simpl. rewrite !Nat.eqb_refl. split; [reflexivity|]. split; [reflexivity|].
  split.
  - destruct (Nat.eqb A B) eqn:HAB; simpl.
    + apply in_or_app. left. apply in_or_app. right. left. reflexivity.
    + apply in_or_app. right. left. reflexivity.
  - simpl. apply in_or_app. right. left. reflexivity.
Qed.

(** ** Loops over a live array *)

Lemma skipn_nth_error {A : Type} (l : list A) (i : nat) (x : A) :
  nth_error l i = Some x -> skipn i l = x :: skipn (S i) l.
Proof.
  revert i. induction l as [|a l IH]; intros [|i] H; try discriminate.
  - injection H as ->. reflexivity.
  - apply (IH i H).
Qed.

(** A loop whose body returns and keeps an invariant [P], under which the
    array is [l], visits the elements of [l] from index [i] on, in order, and
    needs one unit of fuel for each. *)
Lemma for_of_run {St C A : Type} (P : St -> Prop) (R : A -> list C -> Prop)
    (arr : St -> list A) (body : A -> M St C unit) (l : list A) :
  (forall st, P st -> arr st = l) ->
  (forall x st, In x l -> P st ->
     exists st' t, body x st = (Ok tt, st', t) /\ P st' /\ R x t) ->
  forall fuel i st, P st -> length l <= i + fuel ->
  exists st' ts,
    for_of fuel arr i body st = (Ok tt, st', concat ts) /\
    P st' /\ Forall2 R (skipn i l) ts.
Proof.
  intros Harr Hbody. induction fuel as [|fuel IH]; intros i st HP Hlen;
    simpl; rewrite (Harr st HP).
  - destruct (nth_error l i) eqn:Hn.
    + assert (i < length l) by (apply nth_error_Some; congruence). lia.
    + exists st, []. simpl. repeat split; auto.
      rewrite skipn_all2 by lia. constructor.
  - destruct (nth_error l i) as [x|] eqn:Hn.
    + destruct (Hbody x st (nth_error_In _ _ Hn) HP)
        as (st1 & t1 & Hb & HP1 & HR).
      destruct (IH (S i) st1 HP1) as (st' & ts & Hrun & HP' & HF); [lia|].
      exists st', (t1 :: ts). split; [|split; auto].
      * unfold bind. rewrite Hb, Hrun. reflexivity.
      * rewrite (skipn_nth_error _ _ _ Hn). constructor; auto.
    + exists st, []. simpl. repeat split; auto.
      rewrite skipn_all2; [constructor|]. apply nth_error_None. exact Hn.
Qed.

Lemma concat_singletons {A B : Type} (f : A -> B) (l : list A) (ts : list (list B)) :
  Forall2 (fun x t => t = [f x]) l ts -> concat ts = map f l.
Proof.
  induction 1 as [|x t l ts Ht _ IH]; simpl.
  - reflexivity.
  - subst t. rewrite IH. reflexivity.
Qed.

Lemma bind_run {A B : Type} (m : Method A) (f : A -> Method B)
    st a st1 t1 r st2 t2 :
  m st = (Ok a, st1, t1) -> f a st1 = (r, st2, t2) ->
  bind m f st = (r, st2, t1 ++ t2).
Proof. intros Hm Hf. unfold bind. rewrite Hm, Hf. reflexivity. Qed.

Lemma external_quiet this c st :
  quiet this c ->
  exists r st',
    external c st = (Ok r, st', [Called c (Ok r)]) /\
    groups st' this = groups st this.
Proof.
  intros Hq. destruct (Hq st) as (r & st' & Hext & Hsame).
  exists r, st'. split; [apply external_ok; exact Hext|exact Hsame].
Qed.

(** ** init *)

(** C5.  When the [init] of every attached system object and of every child
    returns and leaves the fields of the container alone, [init] makes
    exactly one call per system object, in the order of [_systemObjects], and
    then one call per child, in the order of [_children], N + M calls in all,
    each with the context it was given; one unit of fuel per element of the
    longer array is enough for it to return. *)
Theorem init_propagates (this : ref) (context : SkinContext) (st : State)
    (fuel : nat) :
  (forall s, In s (_systemObjects (groups st this)) ->
             quiet this (SysInit s context)) ->
  (forall c, In c (_children (groups st this)) ->
             quiet this (ChildInit c context)) ->
  length (_systemObjects (groups st this)) <= fuel ->
  length (_children (groups st this)) <= fuel ->
  exists st' t,
    init fuel this context st = (Ok tt, st', t) /\
    t = map (fun s => Called (SysInit s context) (Ok tt))
            (_systemObjects (groups st this))
        ++ map (fun c => Called (ChildInit c context) (Ok tt))
               (_children (groups st this)) /\
    length t = length (_systemObjects (groups st this))
               + length (_children (groups st this)).
Proof.
  intros Hsys Hch Hfs Hfc.
  set (g := groups st this) in *.
  destruct (for_of_run (fun st' => groups st' this = g)
              (fun s t => t = [Called (SysInit s context) (Ok tt)])
              (fun st' => _systemObjects (groups st' this))
              (fun s => external (SysInit s context))
              (_systemObjects g)) with (fuel := fuel) (i := 0) (st := st)
    as (st1 & ts1 & Hrun1 & HP1 & HF1).
  { intros st' ->. reflexivity. }
  { intros s st' Hin HP.
    destruct (external_quiet this (SysInit s context) st' (Hsys s Hin))
      as ([] & st'' & Hext & Hsame).
    exists st'', [Called (SysInit s context) (Ok tt)].
    repeat split; auto. congruence. }
  { reflexivity. }
  { simpl. exact Hfs. }
  destruct (for_of_run (fun st' => groups st' this = g)
              (fun c t => t = [Called (ChildInit c context) (Ok tt)])
              (fun st' => _children (groups st' this))
              (fun c => external (ChildInit c context))
              (_children g)) with (fuel := fuel) (i := 0) (st := st1)
    as (st2 & ts2 & Hrun2 & HP2 & HF2).
  { intros st' ->. reflexivity. }
  { intros c st' Hin HP.
    destruct (external_quiet this (ChildInit c context) st' (Hch c Hin))
      as ([] & st'' & Hext & Hsame).
    exists st'', [Called (ChildInit c context) (Ok tt)].
    repeat split; auto. congruence. }
  { exact HP1. }
  { simpl. exact Hfc. }
  simpl in HF1, HF2.
  apply concat_singletons in HF1. apply concat_singletons in HF2.
  exists st2, (concat ts1 ++ concat ts2). split; [|split].
  - unfold init. eapply bind_run; [exact Hrun1|exact Hrun2].
  - rewrite HF1, HF2. reflexivity.
  - rewrite HF1, HF2, length_app, !length_map. reflexivity.
Qed.

(** ** draw *)

Section Draw.
Variable this : ref.
Variable g : Group.
Hypothesis draw_calls_quiet : forall c, made_by_draw c = true -> quiet this c.

(** A call of [draw], made while the container is [g]. *)
Lemma draw_call (c : call) (st : State) :
  made_by_draw c = true -> groups st this = g ->
  exists r st',
    external c st = (Ok r, st', [Called c (Ok r)]) /\ groups st' this = g.
Proof.
  intros Hc Hg.
  destruct (external_quiet this c st (draw_calls_quiet c Hc))
    as (r & st' & Hext & Hsame).
  exists r, st'. split; [exact Hext|congruence].
Qed.

Lemma draw_child_run (child : gui_ref) (st : State) :
  groups st this = g ->
  exists st' t,
    draw_child this child st = (Ok tt, st', t) /\
    groups st' this = g /\
    exists h, t = turn (_div g) (child, h).
Proof.
  intros Hg.
  destruct (draw_call (ChildDraw child) st eq_refl Hg)
    as ([] & st1 & H1 & Hg1).
  destruct (draw_call (ChildGetDiv child) st1 eq_refl Hg1)
    as (h & st2 & H2 & Hg2).
  destruct (draw_call (AppendChild (_div g) h) st2 eq_refl Hg2)
    as ([] & st3 & H3 & Hg3).
  exists st3, (turn (_div g) (child, h)). split; [|split; [exact Hg3|eauto]].
  unfold draw_child, bind, read.
  rewrite H1. cbv beta iota. rewrite Hg1, H2. cbv beta iota.
  rewrite H3. reflexivity.
Qed.

Lemma draw_background_run (st : State) :
  groups st this = g ->
  exists st' bg,
    draw_background this st = (Ok tt, st', bg) /\
    groups st' this = g /\
    background_calls g bg.
Proof.
  intros Hg. unfold draw_background, background_calls.
  destruct (_background g) as [background|] eqn:Hb.
  - destruct (truthy (_drawBackground g)) eqn:Hd.
    + destruct (draw_call (GetBitmap background) st eq_refl Hg)
        as (bitmap & st1 & H1 & Hg1).
      destruct (draw_call (GetBackgrondCSSAttribute bitmap) st1 eq_refl Hg1)
        as (css & st2 & H2 & Hg2).
      destruct (draw_call (StyleSet (_div g) "background" css) st2 eq_refl Hg2)
        as ([] & st3 & H3 & Hg3).
      exists st3. eexists. split; [|split; [exact Hg3|exists bitmap, css; reflexivity]].
      unfold bind at 1. unfold read at 1. cbv beta iota. rewrite Hg, Hb, Hd.
      unfold bind, read. rewrite H1. cbv beta iota. rewrite Hg1, H2.
      cbv beta iota. rewrite H3. reflexivity.
    + exists st, []. split; [|auto].
      unfold bind, read. cbv beta iota. rewrite Hg, Hb, Hd. reflexivity.
  - exists st, []. split; [|auto].
    unfold bind, read. cbv beta iota. rewrite Hg, Hb. reflexivity.
Qed.

Lemma concat_turns (d : Div) (l : list gui_ref) (ts : list (list event)) :
  Forall2 (fun child t => exists h, t = turn d (child, h)) l ts ->
  exists hs,
    length hs = length l /\ concat ts = flat_map (turn d) (combine l hs).
Proof.
  induction 1 as [|child t l ts [h Ht] _ (hs & Hlen & IH)].
  - exists []. split; reflexivity.
  - exists (h :: hs). simpl length. split; [congruence|].
    subst t. simpl. rewrite IH. reflexivity.
Qed.

(** The whole of [draw]: four calls on the element of the container, the
    background calls, and the turns of the children. *)
Lemma draw_run (fuel : nat) (st : State) :
  groups st this = g ->
  length (_children g) <= fuel ->
  exists st' bg hs,
    draw fuel this st =
      (Ok tt, st',
       [Called (SuperDraw this) (Ok tt);
        Called (DivSetAttribute (_div g) "data-obj-name" "Group") (Ok tt);
        Called (StyleSet (_div g) "height" (px (_maximumHeight g))) (Ok tt);
        Called (StyleSet (_div g) "width" (px (_maximumWidth g))) (Ok tt)]
       ++ bg ++ flat_map (turn (_div g)) (combine (_children g) hs)) /\
    groups st' this = g /\
    background_calls g bg /\
    length hs = length (_children g).
Proof.
  intros Hg Hfuel.
  destruct (draw_call (SuperDraw this) st eq_refl Hg)
    as ([] & st1 & H1 & Hg1).
  destruct (draw_call (DivSetAttribute (_div g) "data-obj-name" "Group")
              st1 eq_refl Hg1) as ([] & st2 & H2 & Hg2).
  destruct (draw_call (StyleSet (_div g) "height" (px (_maximumHeight g)))
              st2 eq_refl Hg2) as ([] & st3 & H3 & Hg3).
  destruct (draw_call (StyleSet (_div g) "width" (px (_maximumWidth g)))
              st3 eq_refl Hg3) as ([] & st4 & H4 & Hg4).
  destruct (draw_background_run st4 Hg4) as (st5 & bg & H5 & Hg5 & Hbg).
  destruct (for_of_run (fun st' => groups st' this = g)
              (fun child t => exists h, t = turn (_div g) (child, h))
              (fun st' => _children (groups st' this))
              (draw_child this) (_children g))
    with (fuel := fuel) (i := 0) (st := st5)
    as (st6 & ts & H6 & Hg6 & HF).
  { intros st' ->. reflexivity. }
  { intros child st' _ Hg'. apply draw_child_run. exact Hg'. }
  { exact Hg5. }
  { simpl. exact Hfuel. }
  simpl in HF. destruct (concat_turns _ _ _ HF) as (hs & Hlen & Hts).
  exists st6, bg, hs. split; [|auto].
  unfold draw, bind, read.
  rewrite H1. cbv beta iota. rewrite Hg1, H2. cbv beta iota.
  rewrite Hg2, H3. cbv beta iota. rewrite Hg3, H4. cbv beta iota.
  rewrite H5. cbv beta iota. rewrite H6, Hts. reflexivity.
Qed.

End Draw.

Lemma appends_turns (d : Div) (l : list gui_ref) (hs : list Div) :
  length hs = length l ->
  appends (flat_map (turn d) (combine l hs)) = map (pair d) hs.
Proof.
  revert hs. induction l as [|c l IH]; intros [|h hs] Hlen;
    try discriminate; simpl.
  - reflexivity.
  - f_equal. apply IH. simpl in Hlen. congruence.
Qed.

Lemma no_background_in_turns (d : Div) (ps : list (gui_ref * Div)) :
  filter is_background_call (flat_map (turn d) ps) = [].
Proof. induction ps as [|p ps IH]; simpl; auto. Qed.

Lemma background_calls_cases (g : Group) (bg : list event) :
  background_calls g bg ->
  existsb is_child_call bg = false /\
  appends bg = [] /\
  filter is_background_call bg = bg.
Proof.
  unfold background_calls.
  destruct (_background g); [destruct (truthy (_drawBackground g))|].
  - intros (bitmap & css & ->). simpl. auto.
  - intros ->. simpl. auto.
  - intros ->. simpl. auto.
Qed.

(** C6.  When the calls that [draw] makes return and leave the fields of the
    container alone, the trace of [draw] ends with one turn per child, in the
    order of [_children]: the child's [draw] is called and returns, then the
    child is asked for its element, then that element is appended to the
    element of the container.  No child is drawn and nothing is appended
    before the first turn, so the elements are appended in the order of the
    children, each after its child's [draw] has returned. *)
Theorem draw_renders_then_appends (this : ref) (st : State) (fuel : nat) :
  (forall c, made_by_draw c = true -> quiet this c) ->
  length (_children (groups st this)) <= fuel ->
  exists st' pre handles,
    draw fuel this st =
      (Ok tt, st',
       pre ++ flat_map (turn (_div (groups st this)))
                (combine (_children (groups st this)) handles)) /\
    length handles = length (_children (groups st this)) /\
    existsb is_child_call pre = false /\
    appends (pre ++ flat_map (turn (_div (groups st this)))
                      (combine (_children (groups st this)) handles))
      = map (pair (_div (groups st this))) handles.
Proof.
  intros Hq Hfuel.
  destruct (draw_run this (groups st this) Hq fuel st eq_refl Hfuel)
    as (st' & bg & hs & Hrun & _ & Hbg & Hlen).
  destruct (background_calls_cases _ _ Hbg) as (Hnochild & Hnoapp & _).
  eexists st', (_ ++ bg), hs. split; [|split; [exact Hlen|split]].
  - rewrite Hrun. rewrite <- app_assoc. reflexivity.
  - rewrite existsb_app, Hnochild. reflexivity.
  - unfold appends in *. rewrite !flat_map_app.
    fold (appends (flat_map (turn (_div (groups st this)))
                     (combine (_children (groups st this)) hs))).
    rewrite (appends_turns _ _ _ Hlen), Hnoapp. reflexivity.
Qed.

(** C7.  When the calls that [draw] makes return and leave the fields of the
    container alone, [draw] makes the background calls (the query of the
    Resource Provider with the stored reference, the read of the CSS value of
    the bitmap it answered, the assignment of that value to the background
    of the element) if and only if [_background] is not null and
    [_drawBackground] is true; otherwise it makes none of them.  In both
    cases [_background] is the same after [draw] as before. *)
Theorem draw_background_iff (this : ref) (st : State) (fuel : nat) :
  (forall c, made_by_draw c = true -> quiet this c) ->
  length (_children (groups st this)) <= fuel ->
  exists st' t,
    draw fuel this st = (Ok tt, st', t) /\
    _background (groups st' this) = _background (groups st this) /\
    (filter is_background_call t <> [] <->
     _background (groups st this) <> None /\
     _drawBackground (groups st this) = Some true) /\
    (forall background,
       _background (groups st this) = Some background ->
       _drawBackground (groups st this) = Some true ->
       exists bitmap css,
         filter is_background_call t =
           [Called (GetBitmap background) (Ok bitmap);
            Called (GetBackgrondCSSAttribute bitmap) (Ok css);
            Called (StyleSet (_div (groups st this)) "background" css) (Ok tt)]).
Proof.
  intros Hq Hfuel.
  destruct (draw_run this (groups st this) Hq fuel st eq_refl Hfuel)
    as (st' & bg & hs & Hrun & Hg' & Hbg & Hlen).
  destruct (background_calls_cases _ _ Hbg) as (_ & _ & Hfilter).
  eexists st', _. split; [exact Hrun|]. split; [rewrite Hg'; reflexivity|].
  assert (Ht : filter is_background_call
                 ([Called (SuperDraw this) (Ok tt);
                   Called (DivSetAttribute (_div (groups st this))
                             "data-obj-name" "Group") (Ok tt);
                   Called (StyleSet (_div (groups st this)) "height"
                             (px (_maximumHeight (groups st this)))) (Ok tt);
                   Called (StyleSet (_div (groups st this)) "width"
                             (px (_maximumWidth (groups st this)))) (Ok tt)]
                  ++ bg ++ flat_map (turn (_div (groups st this)))
                             (combine (_children (groups st this)) hs)) = bg).
  { rewrite !filter_app, no_background_in_turns, Hfilter, app_nil_r.
    reflexivity. }
  rewrite Ht. clear Ht Hrun Hfilter. unfold background_calls in Hbg.
  destruct (_background (groups st this)) as [background|].
  - destruct (_drawBackground (groups st this)) as [[|]|]; simpl in Hbg.
    + destruct Hbg as (bitmap & css & ->). split.
      * split; [intros _; split; [discriminate|reflexivity]|discriminate].
      * intros ? [= <-] _. exists bitmap, css. reflexivity.
    + subst bg. split; [|discriminate].
      split; [contradiction|intros [_ ?]; discriminate].
    + subst bg. split; [|discriminate].
      split; [contradiction|intros [_ ?]; discriminate].
  - subst bg. split; [|discriminate].
    split; [contradiction|intros [? _]; contradiction].
Qed.

End Properties.

(** * The properties on the small skin *)

Section OnTheDemo.
Import Demo.
#[local] Existing Instance Demo.types.
#[local] Existing Instance Demo.collaborators.

(** In the demo every call but the resolver of the base class returns and
    leaves the groups alone. *)
Lemma demo_quiet (this : ref) (c : call) :
  match c with SuperSetXmlAttr _ _ _ => False | _ => True end ->
  quiet this c.
Proof.
  intros Hc st. destruct c; try contradiction; simpl;
    eexists _, _; split; reflexivity.
Qed.

Lemma demo_draw_quiet (this : ref) (c : call) :
  made_by_draw c = true -> quiet this c.
Proof.
  intros Hc. apply demo_quiet. destruct c; try discriminate; exact I.
Qed.

(** The scenarios of the specification. *)

Example scenario_findChild_STOP :
  getobject 0 "STOP" st0 = (Ok (ROther 2), st0, []).
Proof. reflexivity. Qed.

Example scenario_findChild_pause :
  exists message,
    result (getobject 0 "pause" st0) = Throw (Error message) /\
    message =
      ("Could not find an object with the id: " ++ dquote ++ "pause" ++ dquote
       ++ " within object " ++ dquote ++ "main" ++ dquote
       ++ ". Only found: play, stop, panel")%string.
Proof. eexists. split; reflexivity. Qed.

Example scenario_maximum_w_200 :
  trace ((setXmlAttr 0 "maximum_w" "200" ;; setXmlAttr 0 "maximum_h" "50" ;;
          draw 3 0)%method st0) =
    [Called (SuperSetXmlAttr 0 "maximum_w" "200") (Ok false);
     Called (SuperSetXmlAttr 0 "maximum_h" "50") (Ok false);
     Called (SuperDraw 0) (Ok tt);
     Called (DivSetAttribute 0 "data-obj-name" "Group") (Ok tt);
     Called (StyleSet 0 "height" "50px") (Ok tt);
     Called (StyleSet 0 "width" "200px") (Ok tt);
     Called (ChildDraw (ROther 1)) (Ok tt);
     Called (ChildGetDiv (ROther 1)) (Ok 101);
     Called (AppendChild 0 101) (Ok tt);
     Called (ChildDraw (ROther 2)) (Ok tt);
     Called (ChildGetDiv (ROther 2)) (Ok 102);
     Called (AppendChild 0 102) (Ok tt);
     Called (ChildDraw (RGroup 3)) (Ok tt);
     Called (ChildGetDiv (RGroup 3)) (Ok 3);
     Called (AppendChild 0 3) (Ok tt)].
Proof. reflexivity. Qed.

(** A stored id with a capital is out of reach: the query is put in
    lowercase, the stored id is compared as it is. *)
Example stored_id_is_compared_as_is :
  getId_of st0 (RGroup 11) = Some "Deck" /\
  (forall obj, result (getobject 9 "Deck" st0) <> Ok obj) /\
  (forall obj, result (getobject 9 "deck" st0) <> Ok obj).
Proof. repeat split; discriminate. Qed.

(** C1.  The scan is not case-insensitive.  The attribute [instance_id]
    stores the id as it is given and [getobject] puts only the query in
    lowercase, so an id with a capital matches no query.  Group 20 is given
    the instance id Deck and is added to group 3: it is then a direct child
    of group 3 whose resolved id is Deck, and [getobject] on group 3 throws
    for the queries Deck, deck and DECK, naming that very id among the ids it
    found. *)
Theorem getobject_misses_capital_instance_id :
  let st :=
    final ((setXmlAttr 20 "instance_id" "Deck" ;; addChild 3 (RGroup 20))%method
             st0) in
  result ((setXmlAttr 20 "instance_id" "Deck" ;; addChild 3 (RGroup 20))%method
            st0) = Ok tt /\
  _children (groups st 3) = [ROther 4; RGroup 20] /\
  getId_of st (RGroup 20) = Some "Deck" /\
  getobject 3 "Deck" st =
    (Throw (Error
       ("Could not find an object with the id: " ++ dquote ++ "Deck" ++ dquote
        ++ " within object " ++ dquote ++ "panel" ++ dquote
        ++ ". Only found: deep, Deck")%string), st, []) /\
  getobject 3 "deck" st =
    (Throw (Error
       ("Could not find an object with the id: " ++ dquote ++ "deck" ++ dquote
        ++ " within object " ++ dquote ++ "panel" ++ dquote
        ++ ". Only found: deep, Deck")%string), st, []) /\
  getobject 3 "DECK" st =
    (Throw (Error
       ("Could not find an object with the id: " ++ dquote ++ "DECK" ++ dquote
        ++ " within object " ++ dquote ++ "panel" ++ dquote
        ++ ". Only found: deep, Deck")%string), st, []).
Proof. vm_compute. repeat split; reflexivity. Qed.

(** An exception of [Utils.toBool] leaves [setXmlAttr] as it is. *)
Example coercion_failure_propagates :
  result (setXmlAttr 0 "drawbackground" "yes" st0) =
    Throw (Error "Expected bool value to be 0 or 1").
Proof. reflexivity. Qed.

(** The loop of [init] visits what is pushed while it runs, so a callee that
    keeps pushing exhausts any fuel. *)
Example for_of_is_live :
  result (for_of 10 (fun l : list nat => l) 0
              (fun x => fun l => (Ok tt, l ++ [x], [x])) [1; 2])
    = OutOfFuel.
Proof. reflexivity. Qed.

(** Witnesses. *)

Lemma getobject_scans_direct_children_witness :
  In (RGroup 3) (_children (groups st0 0)) /\
  In (ROther 4) (_children (groups st0 3)) /\
  ~ In (ROther 4) (_children (groups st0 0)) /\
  getId_of st0 (ROther 4) = Some (toLowerCase "Deep") /\
  result (getobject 0 "Deep" st0) <> Ok (ROther 4).
Proof.
  assert (Hnot : ~ In (ROther 4) (_children (groups st0 0))).
  { simpl. intros [H|[H|[H|[]]]]; discriminate H. }
  split; [simpl; auto|]. split; [simpl; auto|]. split; [exact Hnot|].
  split; [reflexivity|].
  apply (proj2 (proj2 (proj2 (getobject_scans_direct_children 0 "Deep" st0)))
           3 (ROther 4)).
  - simpl; auto.
  - simpl; auto.
  - exact Hnot.
Defined.


Lemma getobject_earliest_witness :
  _children (groups st0 6) = [ROther 1; ROther 2; RGroup 10; ROther 2] /\
  getId_of st0 (RGroup 10) = Some "stop" /\
  getobject 6 "Stop" st0 = (Ok (ROther 2), st0, []).
Proof.
  split; [reflexivity|]. split; [reflexivity|].
  apply (getobject_earliest 6 "Stop" st0 1 (ROther 2)).
  - reflexivity.
  - reflexivity.
  - intros j o Hj. assert (j = 0) as -> by lia. simpl.
    intros [= <-]. discriminate.
Defined.

Lemma setXmlAttr_recognized_or_ignored_witness :
  (exists st2,
     setXmlAttr 0 "DrawBackground" "1" st0 =
       (Ok true, st2, [Called (SuperSetXmlAttr 0 "drawbackground" "1") (Ok false)])
     /\ holds_coerced "drawbackground" "1" (groups st2 0))
  /\
  (exists st2,
     setXmlAttr 0 "Alpha" "128" st0 =
       (Ok false, st2, [Called (SuperSetXmlAttr 0 "alpha" "128") (Ok false)])
     /\ st2 = served st0
     /\ groups st2 0 = groups st0 0).
Proof.
  split.
  - apply (proj1 (setXmlAttr_recognized_or_ignored 0)
             "DrawBackground" "drawbackground" "1" st0 (served st0)).
    + reflexivity.
    + simpl; auto.
    + reflexivity.
    + split; [intros _; exists true; reflexivity|].
      simpl. intros [H|[H|[H|[H|[]]]]]; discriminate H.
  - apply (proj2 (setXmlAttr_recognized_or_ignored 0)
             "Alpha" "128" st0 (served st0)).
    + simpl. intros [H|[H|[H|[H|[H|[H|[H|[]]]]]]]]; discriminate H.
    + reflexivity.
    + reflexivity.
Defined.

Lemma setXmlAttr_chain_witness :
  setXmlAttr 0 "ID" "Main2" st0 =
    (Ok true, snd (ext (SuperSetXmlAttr 0 "id" "Main2") st0),
     [Called (SuperSetXmlAttr 0 "id" "Main2") (Ok true)])
  /\ _id (groups (final (setXmlAttr 0 "ID" "Main2" st0)) 0) = Some "main2"
  /\ setXmlAttr 0 "MAXIMUM_W" "7" st0 = setXmlAttr 0 "maximum_w" "7" st0
  /\ (exists st2,
        setXmlAttr 0 "Background" "bg.png" st0 =
          (Ok (false || recognized (toLowerCase "Background")), st2,
           [Called (SuperSetXmlAttr 0 (toLowerCase "Background") "bg.png")
              (Ok false)]))
  /\ recognized (toLowerCase "Background") = true
  /\ (exists st2,
        setXmlAttr 0 "Alpha" "128" st0 =
          (Ok (false || recognized (toLowerCase "Alpha")), st2,
           [Called (SuperSetXmlAttr 0 (toLowerCase "Alpha") "128") (Ok false)]))
  /\ recognized (toLowerCase "Alpha") = false.
Proof.
  split; [|split; [|split; [|split; [|split; [|split]]]]].
  - apply (proj1 (proj2 (proj2 (setXmlAttr_chain 0 "Main2" st0))) "ID").
    reflexivity.
  - reflexivity.
  - apply (proj1 (setXmlAttr_chain 0 "7" st0) "MAXIMUM_W" "maximum_w").
    reflexivity.
  - apply (proj1 (proj2 (proj2 (proj2 (setXmlAttr_chain 0 "bg.png" st0))))
             "Background" false (served st0)).
    + reflexivity.
    + split; [discriminate|].
      simpl. intros [H|[H|[H|[H|[]]]]]; discriminate H.
  - reflexivity.
  - apply (proj1 (proj2 (proj2 (proj2 (setXmlAttr_chain 0 "128" st0))))
             "Alpha" false (served st0)).
    + reflexivity.
    + split; [discriminate|].
      simpl. intros [H|[H|[H|[H|[]]]]]; discriminate H.
  - reflexivity.
Defined.

Lemma init_propagates_witness :
  exists st' t,
    init 3 0 42 st0 = (Ok tt, st', t) /\
    t = [Called (SysInit 7 42) (Ok tt); Called (SysInit 8 42) (Ok tt);
         Called (ChildInit (ROther 1) 42) (Ok tt);
         Called (ChildInit (ROther 2) 42) (Ok tt);
         Called (ChildInit (RGroup 3) 42) (Ok tt)] /\
    length t = 2 + 3.
Proof.
  apply (@init_propagates types collaborators 0 42 st0 3).
  - intros s _. apply demo_quiet. exact I.
  - intros c _. apply demo_quiet. exact I.
  - simpl. lia.
  - simpl. lia.
Defined.

Lemma draw_renders_then_appends_witness :
  exists st' pre handles,
    draw 3 0 st0 =
      (Ok tt, st',
       pre ++ flat_map (turn 0)
                (combine [ROther 1; ROther 2; RGroup 3] handles)) /\
    length handles = 3 /\
    existsb is_child_call pre = false /\
    appends (pre ++ flat_map (turn 0)
                      (combine [ROther 1; ROther 2; RGroup 3] handles))
      = map (pair 0) handles.
Proof.
  apply (draw_renders_then_appends 0 st0 3).
  - apply demo_draw_quiet.
  - simpl. lia.
Defined.

Lemma draw_background_iff_witness :
  _background (groups st0 12) = Some "bg.png" /\
  _drawBackground (groups st0 12) = Some true /\
  exists st' t,
    draw 1 12 st0 = (Ok tt, st', t) /\
    _background (groups st' 12) = Some "bg.png" /\
    filter is_background_call t <> [] /\
    exists bitmap css,
      filter is_background_call t =
        [Called (GetBitmap "bg.png") (Ok bitmap);
         Called (GetBackgrondCSSAttribute bitmap) (Ok css);
         Called (StyleSet 12 "background" css) (Ok tt)].
Proof.
  split; [reflexivity|]. split; [reflexivity|].
  destruct (draw_background_iff 12 st0 1 (demo_draw_quiet 12))
    as (st' & t & Hrun & Hbg & Hiff & Happlied); [simpl; lia|].
  exists st', t. split; [exact Hrun|]. split; [exact Hbg|]. split.
  - apply Hiff. split; [discriminate|reflexivity].
  - apply (Happlied "bg.png"); reflexivity.
Defined.

(** Without a background the same [draw] makes none of the three calls. *)
Example draw_without_background :
  filter is_background_call (trace (draw 3 0 st0)) = [] /\
  filter is_background_call (trace (draw 1 12 st0)) =
    [Called (GetBitmap "bg.png") (Ok "bg.png");
     Called (GetBackgrondCSSAttribute "bg.png") (Ok "url(bg.png)"%string);
     Called (StyleSet 12 "background" "url(bg.png)") (Ok tt)].
Proof. split; reflexivity. Qed.

Lemma getId_resolution_witness :
  result (setXmlAttr 0 "Instance_ID" "Deck" st0) = Ok true /\
  _instanceId (groups (final (setXmlAttr 0 "Instance_ID" "Deck" st0)) 0)
    = Some "Deck" /\
  getId (groups (final (setXmlAttr 0 "Instance_ID" "Deck" st0)) 0)
    = Some "Deck".
Proof.
  destruct (proj2 (proj2 (proj2 (getId_resolution 0)))
              "Instance_ID" "Deck" st0 (served st0))
    as (Hret & Hinst & _ & Hset & _); [reflexivity|reflexivity|].
  split; [exact Hret|]. split; [exact Hinst|].
  apply Hset. discriminate.
Defined.

(** Counterexamples. *)

(** C8 as stated fails on an instance id that is the empty string: the
    attribute is handled and the field holds the empty string, yet [getId]
    answers the declared id. *)
Lemma getId_empty_instance_id_counterexample :
  result (setXmlAttr 0 "instance_id" EmptyString st0) = Ok true /\
  _instanceId (groups (final (setXmlAttr 0 "instance_id" EmptyString st0)) 0)
    = Some EmptyString /\
  getId (groups (final (setXmlAttr 0 "instance_id" EmptyString st0)) 0)
    = Some "main" /\
  ~ (getId (groups (final (setXmlAttr 0 "instance_id" EmptyString st0)) 0)
     = _instanceId
         (groups (final (setXmlAttr 0 "instance_id" EmptyString st0)) 0)).
Proof. repeat split; discriminate. Qed.

(** C9 as stated fails on a system object added to group 3 and then to
    group 6: its back-reference is group 6, and it is in both lists. *)
Lemma addSystemObject_twice_counterexample :
  ~ (_parentGroup
       (sysobjs (final ((addSystemObject 3 7 ;; addSystemObject 6 7)%method st0)) 7)
       = Some 6 /\
     ~ (In 7 (_systemObjects
                (groups (final ((addSystemObject 3 7 ;; addSystemObject 6 7)%method st0)) 3)) /\
        In 7 (_systemObjects
                (groups (final ((addSystemObject 3 7 ;; addSystemObject 6 7)%method st0)) 6)))).
Proof.
  intros [_ Hnot]. apply Hnot. simpl. auto.
Qed.

End OnTheDemo.

(** * Further properties of Group.ts *)

Section MoreProperties.
Context {T : Types} {E : Collaborators}.
Local Open Scope method_scope.

(** ** Lookup after the container has changed *)

Lemma getobject_loop_ext st st' lower l :
  (forall o, getId_of st' o = getId_of st o) ->
  getobject_loop st' lower l = getobject_loop st lower l.
Proof.
  intros Hids. induction l as [|x l IH]; simpl.
  - reflexivity.
  - rewrite Hids, IH. reflexivity.
Qed.

Lemma getobject_loop_app st lower l1 l2 :
  getobject_loop st lower (l1 ++ l2) =
    match getobject_loop st lower l1 with
    | Some obj => Some obj
    | None => getobject_loop st lower l2
    end.
Proof.
  induction l1 as [|x l1 IH]; simpl.
  - reflexivity.
  - destruct (strict_eq (getId_of st x) lower); [reflexivity|exact IH].
Qed.

(** The outcome of [getobject] is a function of the array of children, of
    the ids of the objects and of the id of the container. *)
Lemma getobject_result_ext this objectId st st' :
  _children (groups st' this) = _children (groups st this) ->
  getId (groups st' this) = getId (groups st this) ->
  (forall o, getId_of st' o = getId_of st o) ->
  result (getobject this objectId st') = result (getobject this objectId st).
Proof.
  intros Hch Hid Hids. unfold getobject, getobject_message, result.
  rewrite Hch, Hid, (getobject_loop_ext _ _ _ _ Hids).
  rewrite (map_ext _ _ Hids).
  destruct (getobject_loop st (toLowerCase objectId) (_children (groups st this)));
    reflexivity.
Qed.

Lemma getId_of_addChild that child st obj :
  getId_of (final (addChild that child st)) obj = getId_of st obj.
Proof.
  destruct obj as [r|r]; simpl; [|reflexivity].
  destruct (Nat.eqb r that); reflexivity.
Qed.

Lemma getId_of_addSystemObject that systemObj st obj :
  getId_of (final (addSystemObject that systemObj st)) obj = getId_of st obj.
Proof.
  destruct obj as [r|r]; simpl; [|reflexivity].
  destruct (Nat.eqb r that); reflexivity.
Qed.

Lemma children_addChild this child st :
  _children (groups (final (addChild this child st)) this)
    = _children (groups st this) ++ [child].
Proof. simpl. rewrite Nat.eqb_refl. reflexivity. Qed.

(** X1.  Let no child of the container have the lowercase form of the
    query as its id.  After [addChild], [getobject] returns the new child
    exactly when the id of the new child is the lowercase form of the query:
    it is found then, whatever the case of the letters of the query, and
    otherwise (an id with a capital, for one) nothing is found. *)
Theorem addChild_then_getobject (this : ref) (child : gui_ref)
    (objectId : string) (st : State) :
  (forall o, In o (_children (groups st this)) ->
             getId_of st o <> Some (toLowerCase objectId)) ->
  (getId_of st child = Some (toLowerCase objectId) ->
   result (getobject this objectId (final (addChild this child st)))
     = Ok child)
  /\
  (getId_of st child <> Some (toLowerCase objectId) ->
   forall obj,
     result (getobject this objectId (final (addChild this child st)))
       <> Ok obj).
Proof.
  intros Hmiss. apply getobject_loop_none in Hmiss.
  assert (Hloop : getobject_loop (final (addChild this child st))
                    (toLowerCase objectId)
                    (_children (groups (final (addChild this child st)) this))
                  = getobject_loop st (toLowerCase objectId) [child]).
  { rewrite children_addChild.
    rewrite (getobject_loop_ext st _ _ _ (getId_of_addChild this child st)).
    rewrite getobject_loop_app, Hmiss. reflexivity. }
  split.
  - intros Hid. apply getobject_ok. rewrite Hloop. simpl.
    rewrite (proj2 (strict_eq_true _ _) Hid). reflexivity.
  - intros Hid obj Hfound. apply getobject_ok in Hfound.
    rewrite Hloop in Hfound. simpl in Hfound.
    rewrite (proj2 (strict_eq_false _ _) Hid) in Hfound. discriminate.
Qed.

(** X2.  Adding a child, to this container or to any other, never changes
    what a successful lookup returns: the new child comes last, so it cannot
    take the place of a child found before. *)
Theorem addChild_keeps_lookups (this that : ref) (child : gui_ref)
    (objectId : string) (st : State) (obj : gui_ref) :
  result (getobject this objectId st) = Ok obj ->
  result (getobject this objectId (final (addChild that child st))) = Ok obj.
Proof.
  intros Hfound. apply getobject_ok in Hfound. apply getobject_ok.
  rewrite (getobject_loop_ext st _ _ _ (getId_of_addChild that child st)).
  simpl. destruct (Nat.eqb_spec this that) as [->|Hne].
  - simpl. rewrite getobject_loop_app, Hfound. reflexivity.
  - exact Hfound.
Qed.

(** X3.  Attaching a system object, to this container or to any other,
    changes nothing for [getobject]: the same child is found, or the same
    error is thrown with the same message. *)
Theorem addSystemObject_invisible_to_getobject (this that systemObj : ref)
    (objectId : string) (st : State) :
  result (getobject this objectId (final (addSystemObject that systemObj st)))
    = result (getobject this objectId st).
Proof.
  apply getobject_result_ext.
  - simpl. destruct (Nat.eqb this that); reflexivity.
  - simpl. destruct (Nat.eqb this that); reflexivity.
  - apply getId_of_addSystemObject.
Qed.

(** X4.  A child whose id is undefined cannot be looked up: no query returns
    it, not even the word that an undefined id is printed as. *)
Theorem getobject_skips_undefined_ids (this : ref) (objectId : string)
    (st : State) (obj : gui_ref) :
  getId_of st obj = None ->
  result (getobject this objectId st) <> Ok obj.
Proof.
  intros Hnone Hfound. apply getobject_ok, getobject_loop_first in Hfound.
  destruct Hfound as (_ & _ & _ & Hid & _). congruence.
Qed.

Lemma lower_char_not_upper (c : ascii) : is_upper (lower_char c) = false.
Proof.
  destruct c as [[] [] [] [] [] [] [] []]; reflexivity.
Qed.

Lemma lower_char_ascii (c : ascii) :
  is_ascii c = true -> is_ascii (lower_char c) = true.
Proof.
  destruct c as [[] [] [] [] [] [] [] []]; intros H;
    try discriminate H; reflexivity.
Qed.

Lemma lower_char_idem (c : ascii) : lower_char (lower_char c) = lower_char c.
Proof.
  unfold lower_char at 1. rewrite lower_char_not_upper. reflexivity.
Qed.

Lemma no_upper_lower (s : string) : no_upper (string_map lower_char s) = true.
Proof.
  unfold no_upper. induction s as [|c s IH]; simpl.
  - reflexivity.
  - rewrite lower_char_not_upper, IH. reflexivity.
Qed.

Lemma toLowerCase_ascii_idem (s : string) :
  string_forall is_ascii s = true ->
  toLowerCase (toLowerCase s) = toLowerCase s.
Proof.
  intros Hs. unfold toLowerCase. rewrite Hs.
  assert (Hl : string_forall is_ascii (string_map lower_char s) = true).
  { induction s as [|c s IH]; simpl in *; [reflexivity|].
    apply andb_true_iff in Hs. destruct Hs as [Hc Hs].
    rewrite (lower_char_ascii _ Hc), (IH Hs). reflexivity. }
  rewrite Hl. clear Hs Hl. induction s as [|c s IH]; simpl.
  - reflexivity.
  - rewrite lower_char_idem, IH. reflexivity.
Qed.

(** X5.  A child whose id contains a capital letter A..Z is out of the reach
    of every ASCII query: the query is put in lowercase, the id is not. *)
Theorem getobject_never_finds_capital_id (this : ref) (objectId : string)
    (st : State) (obj : gui_ref) (id : string) :
  string_forall is_ascii objectId = true ->
  getId_of st obj = Some id ->
  no_upper id = false ->
  result (getobject this objectId st) <> Ok obj.
Proof.
  intros Hascii Hid Hupper Hfound.
  apply getobject_ok, getobject_loop_first in Hfound.
  destruct Hfound as (_ & _ & _ & Hmatch & _).
  rewrite Hid in Hmatch. injection Hmatch as ->.
  unfold toLowerCase in Hupper. rewrite Hascii, no_upper_lower in Hupper.
  discriminate.
Qed.

(** X6.  An ASCII key or query may be given in lowercase beforehand without
    any change: [setXmlAttr] runs alike on a key and on its lowercase form,
    and [getobject] finds the same child. *)
Theorem lowercase_beforehand (this : ref) (name value : string) (st : State) :
  string_forall is_ascii name = true ->
  setXmlAttr this (toLowerCase name) value st = setXmlAttr this name value st /\
  (forall obj,
     result (getobject this (toLowerCase name) st) = Ok obj <->
     result (getobject this name st) = Ok obj).
Proof.
  intros Hascii. split.
  - unfold setXmlAttr. rewrite (toLowerCase_ascii_idem _ Hascii). reflexivity.
  - intros obj. rewrite !getobject_ok, (toLowerCase_ascii_idem _ Hascii).
    reflexivity.
Qed.

(** ** setXmlAttr: exceptions and the fields it leaves alone *)

(** X7.  An exception of the base class or of [Utils] leaves [setXmlAttr] as
    it is, and then [Group.ts] has assigned nothing: the store is the one the
    base class left. *)
Theorem setXmlAttr_error_propagates (this : ref) (key value : string)
    (st st1 : State) (e : exn) :
  (ext (SuperSetXmlAttr this (toLowerCase key) value) st = (Throw e, st1) ->
   setXmlAttr this key value st =
     (Throw e, st1,
      [Called (SuperSetXmlAttr this (toLowerCase key) value) (Throw e)]))
  /\
  (ext (SuperSetXmlAttr this (toLowerCase key) value) st = (Ok false, st1) ->
   toLowerCase key = "drawbackground" ->
   toBool value = inl e ->
   setXmlAttr this key value st =
     (Throw e, st1,
      [Called (SuperSetXmlAttr this (toLowerCase key) value) (Ok false)]))
  /\
  (ext (SuperSetXmlAttr this (toLowerCase key) value) st = (Ok false, st1) ->
   In (toLowerCase key) ["minimum_h"; "minimum_w"; "maximum_h"; "maximum_w"] ->
   num value = inl e ->
   setXmlAttr this key value st =
     (Throw e, st1,
      [Called (SuperSetXmlAttr this (toLowerCase key) value) (Ok false)])).
Proof.
  split; [|split].
  - intros Hext. rewrite (setXmlAttr_unfold _ _ _ _ _ _ Hext). reflexivity.
  - intros Hext Hkey Hbool. rewrite (setXmlAttr_unfold _ _ _ _ _ _ Hext), Hkey.
    unfold setXmlAttr_own. simpl String.eqb. cbv iota. rewrite Hbool.
    reflexivity.
  - intros Hext Hkey Hnum. rewrite (setXmlAttr_unfold _ _ _ _ _ _ Hext).
    simpl in Hkey. destruct Hkey as [<-|[<-|[<-|[<-|[]]]]];
      unfold setXmlAttr_own; simpl String.eqb; cbv iota; rewrite Hnum;
      reflexivity.
Qed.

(** What the [switch] leaves alone. *)
Lemma setXmlAttr_own_frame this key value st :
  sysobjs (final (setXmlAttr_own this key value st)) = sysobjs st /\
  world (final (setXmlAttr_own this key value st)) = world st /\
  (forall other, other <> this ->
     groups (final (setXmlAttr_own this key value st)) other = groups st other) /\
  _children (groups (final (setXmlAttr_own this key value st)) this)
    = _children (groups st this) /\
  _systemObjects (groups (final (setXmlAttr_own this key value st)) this)
    = _systemObjects (groups st this) /\
  _id (groups (final (setXmlAttr_own this key value st)) this)
    = _id (groups st this) /\
  _div (groups (final (setXmlAttr_own this key value st)) this)
    = _div (groups st this) /\
  _desktopAlpha (groups (final (setXmlAttr_own this key value st)) this)
    = _desktopAlpha (groups st this).
Proof.
  assert (Hother : forall other, other <> this -> Nat.eqb other this = false)
    by (intros other Hne; apply Nat.eqb_neq; exact Hne).
  unfold setXmlAttr_own.
  repeat match goal with
  | |- context [String.eqb key ?k] => destruct (String.eqb key k)
  end;
  try (destruct (toBool value)); try (destruct (num value));
  simpl; rewrite ?Nat.eqb_refl; repeat split; auto;
  intros other Hne; rewrite (Hother other Hne); reflexivity.
Qed.

(** X8.  Whatever the key and the value, and whether it returns or throws,
    [setXmlAttr] itself writes nothing but fields of [this]: after the call
    of the base class, the system objects, the world and the other groups
    stay as they are, and so do the children, the system objects, the id,
    the element and the desktop-alpha flag of [this]. *)
Theorem setXmlAttr_frame (this : ref) (key value : string) (st st1 : State)
    (r : outcome bool) :
  ext (SuperSetXmlAttr this (toLowerCase key) value) st = (r, st1) ->
  sysobjs (final (setXmlAttr this key value st)) = sysobjs st1 /\
  world (final (setXmlAttr this key value st)) = world st1 /\
  (forall other, other <> this ->
     groups (final (setXmlAttr this key value st)) other = groups st1 other) /\
  _children (groups (final (setXmlAttr this key value st)) this)
    = _children (groups st1 this) /\
  _systemObjects (groups (final (setXmlAttr this key value st)) this)
    = _systemObjects (groups st1 this) /\
  _id (groups (final (setXmlAttr this key value st)) this)
    = _id (groups st1 this) /\
  _div (groups (final (setXmlAttr this key value st)) this)
    = _div (groups st1 this) /\
  _desktopAlpha (groups (final (setXmlAttr this key value st)) this)
    = _desktopAlpha (groups st1 this).
Proof.
  intros Hext. rewrite (setXmlAttr_unfold _ _ _ _ _ _ Hext).
  destruct r as [[|]| |]; try (repeat split; reflexivity).
  apply setXmlAttr_own_frame.
Qed.

(** X9.  An attribute writes one field at most: each of the seven fields of
    the table is, after [setXmlAttr], what the base class left, unless the
    lowercase key is the key of that field. *)
Theorem setXmlAttr_writes_one_field (this : ref) (key value : string)
    (st st1 : State) (r : outcome bool) :
  ext (SuperSetXmlAttr this (toLowerCase key) value) st = (r, st1) ->
  let g1 := groups st1 this in
  let g2 := groups (final (setXmlAttr this key value st)) this in
  (toLowerCase key <> "instance_id" -> _instanceId g2 = _instanceId g1) /\
  (toLowerCase key <> "background" -> _background g2 = _background g1) /\
  (toLowerCase key <> "drawbackground" ->
   _drawBackground g2 = _drawBackground g1) /\
  (toLowerCase key <> "minimum_h" -> _minimumHeight g2 = _minimumHeight g1) /\
  (toLowerCase key <> "minimum_w" -> _minimumWidth g2 = _minimumWidth g1) /\
  (toLowerCase key <> "maximum_h" -> _maximumHeight g2 = _maximumHeight g1) /\
  (toLowerCase key <> "maximum_w" -> _maximumWidth g2 = _maximumWidth g1).
Proof.
  intros Hext. rewrite (setXmlAttr_unfold _ _ _ _ _ _ Hext).
  destruct r as [[|]| |]; try (simpl; repeat split; reflexivity).
  unfold final. cbv zeta. simpl fst. simpl snd.
  generalize (toLowerCase key) as K. intros K. unfold setXmlAttr_own.
  repeat match goal with
  | |- context [String.eqb K ?k] => destruct (String.eqb_spec K k)
  end;
  try (destruct (toBool value)); try (destruct (num value));
  simpl; rewrite ?Nat.eqb_refl; repeat split; intros; simpl;
  try reflexivity; try contradiction; subst; try discriminate.
Qed.

(** ** The back-references of system objects *)

(** X10.  [addSystemObject] and [addChild] keep the invariant that every
    back-reference points to a container that lists the system object. *)
Theorem back_refs_listed_kept (this : ref) (systemObj : ref) (child : gui_ref)
    (st : State) :
  back_refs_listed st ->
  back_refs_listed (final (addSystemObject this systemObj st)) /\
  back_refs_listed (final (addChild this child st)).
Proof.
  intros Hinv. split; intros s g; simpl.
  - destruct (Nat.eqb_spec s systemObj) as [->|Hs]; simpl.
    + intros [= <-]. rewrite Nat.eqb_refl. simpl.
      apply in_or_app. right. left. reflexivity.
    + intros Hp. apply Hinv in Hp.
      destruct (Nat.eqb g this); simpl; auto.
      apply in_or_app. left. exact Hp.
  - intros Hp. apply Hinv in Hp. destruct (Nat.eqb g this); simpl; auto.
Qed.

(** ** Loops that are cut short *)

(** A loop whose body throws on the element [x] stops there: the elements
    before [x] have had their turn, [x] has thrown, the elements after it
    are not visited. *)
Lemma for_of_throw {St C A : Type} (P : St -> Prop) (R : A -> list C -> Prop)
    (arr : St -> list A) (body : A -> M St C unit)
    (before : list A) (x : A) (after : list A) (e : exn) (tx : list C) :
  (forall st, P st -> arr st = before ++ x :: after) ->
  (forall y st, In y before -> P st ->
     exists st' t, body y st = (Ok tt, st', t) /\ P st' /\ R y t) ->
  (forall st, P st -> exists st', body x st = (Throw e, st', tx)) ->
  forall fuel i st, P st -> i <= length before -> length before < i + fuel ->
  exists st' ts,
    for_of fuel arr i body st = (Throw e, st', concat ts ++ tx) /\
    Forall2 R (skipn i before) ts.
Proof.
  intros Harr Hbody Hthrow. induction fuel as [|fuel IH];
    intros i st HP Hi Hlen; [lia|].
  simpl. rewrite (Harr st HP).
  destruct (Nat.eq_dec i (length before)) as [->|Hne].
  - rewrite nth_error_app2 by lia. rewrite Nat.sub_diag. simpl.
    destruct (Hthrow st HP) as (st' & Hx).
    exists st', []. split.
    + unfold bind. rewrite Hx. reflexivity.
    + rewrite skipn_all. constructor.
  - assert (Hlt : i < length before) by lia.
    rewrite nth_error_app1 by exact Hlt.
    destruct (nth_error before i) as [y|] eqn:Hn.
    + destruct (Hbody y st (nth_error_In _ _ Hn) HP)
        as (st1 & t1 & Hb & HP1 & HR).
      destruct (IH (S i) st1 HP1) as (st' & ts & Hrun & HF); [lia|lia|].
      exists st', (t1 :: ts). split.
      * unfold bind. rewrite Hb, Hrun. simpl. rewrite app_assoc. reflexivity.
      * rewrite (skipn_nth_error _ _ _ Hn). constructor; auto.
    + apply nth_error_None in Hn. lia.
Qed.

(** The trace of [init] when every callee returns and leaves the container
    alone. *)
Lemma init_run (this : ref) (context : SkinContext) (st : State) (fuel : nat) :
  (forall s, In s (_systemObjects (groups st this)) ->
             quiet this (SysInit s context)) ->
  (forall c, In c (_children (groups st this)) ->
             quiet this (ChildInit c context)) ->
  length (_systemObjects (groups st this)) <= fuel ->
  length (_children (groups st this)) <= fuel ->
  exists st',
    init fuel this context st =
      (Ok tt, st',
       map (fun s => Called (SysInit s context) (Ok tt))
           (_systemObjects (groups st this))
       ++ map (fun c => Called (ChildInit c context) (Ok tt))
              (_children (groups st this))) /\
    groups st' this = groups st this.
Proof.
  intros Hsys Hch Hfs Hfc.
  set (g := groups st this) in *.
  destruct (for_of_run (fun st' => groups st' this = g)
              (fun s t => t = [Called (SysInit s context) (Ok tt)])
              (fun st' => _systemObjects (groups st' this))
              (fun s => external (SysInit s context))
              (_systemObjects g)) with (fuel := fuel) (i := 0) (st := st)
    as (st1 & ts1 & Hrun1 & HP1 & HF1).
  { intros st' ->. reflexivity. }
  { intros s st' Hin HP.
    destruct (external_quiet this (SysInit s context) st' (Hsys s Hin))
      as ([] & st'' & Hext & Hsame).
    exists st'', [Called (SysInit s context) (Ok tt)].
    repeat split; auto. congruence. }
  { reflexivity. }
  { simpl. exact Hfs. }
  destruct (for_of_run (fun st' => groups st' this = g)
              (fun c t => t = [Called (ChildInit c context) (Ok tt)])
              (fun st' => _children (groups st' this))
              (fun c => external (ChildInit c context))
              (_children g)) with (fuel := fuel) (i := 0) (st := st1)
    as (st2 & ts2 & Hrun2 & HP2 & HF2).
  { intros st' ->. reflexivity. }
  { intros c st' Hin HP.
    destruct (external_quiet this (ChildInit c context) st' (Hch c Hin))
      as ([] & st'' & Hext & Hsame).
    exists st'', [Called (ChildInit c context) (Ok tt)].
    repeat split; auto. congruence. }
  { exact HP1. }
  { simpl. exact Hfc. }
  simpl in HF1, HF2.
  apply concat_singletons in HF1. apply concat_singletons in HF2.
  exists st2. split; [|exact HP2].
  rewrite <- HF1, <- HF2. unfold init.
  eapply bind_run; [exact Hrun1|exact Hrun2].
Qed.

(** ** init: a callee that throws, an object attached twice *)

(** X11.  When the [init] of a system object throws, [init] throws the same
    exception at once: the system objects before it have been initialized,
    in order, and nothing after it is, no child in particular. *)
Theorem init_stops_at_failing_system_object (this : ref)
    (context : SkinContext) (st : State) (fuel : nat)
    (before : list ref) (s : ref) (after : list ref) (e : exn) :
  _systemObjects (groups st this) = before ++ s :: after ->
  (forall x, In x before -> quiet this (SysInit x context)) ->
  (forall st', exists st'', ext (SysInit s context) st' = (Throw e, st'')) ->
  length before < fuel ->
  exists st',
    init fuel this context st =
      (Throw e, st',
       map (fun x => Called (SysInit x context) (Ok tt)) before
       ++ [Called (SysInit s context) (Throw e)]).
Proof.
  intros Hsys Hbefore Hthrow Hfuel.
  set (g := groups st this) in *.
  destruct (for_of_throw (fun st' => groups st' this = g)
              (fun x t => t = [Called (SysInit x context) (Ok tt)])
              (fun st' => _systemObjects (groups st' this))
              (fun x => external (SysInit x context))
              before s after e [Called (SysInit s context) (Throw e)])
    with (fuel := fuel) (i := 0) (st := st)
    as (st1 & ts & Hrun & HF).
  { intros st' ->. exact Hsys. }
  { intros x st' Hin HP.
    destruct (external_quiet this (SysInit x context) st' (Hbefore x Hin))
      as ([] & st'' & Hext & Hsame).
    exists st'', [Called (SysInit x context) (Ok tt)].
    repeat split; auto. congruence. }
  { intros st' _. destruct (Hthrow st') as (st'' & Hx).
    exists st''. unfold external. rewrite Hx. reflexivity. }
  { reflexivity. }
  { lia. }
  { simpl. exact Hfuel. }
  simpl in HF. apply concat_singletons in HF.
  exists st1. unfold init, bind. rewrite Hrun, HF. reflexivity.
Qed.

(** X12.  A system object attached twice to the same container is
    initialized twice: after the two [addSystemObject], [init] calls the
    [init] of the system objects that were there, then twice that of the
    new one, then that of the children. *)
Theorem init_after_double_attach (this systemObj : ref)
    (context : SkinContext) (st : State) (fuel : nat) :
  let attached :=
    final ((addSystemObject this systemObj ;;
            addSystemObject this systemObj) st) in
  (forall s, In s (_systemObjects (groups st this) ++ [systemObj]) ->
             quiet this (SysInit s context)) ->
  (forall c, In c (_children (groups st this)) ->
             quiet this (ChildInit c context)) ->
  length (_systemObjects (groups st this)) + 2 <= fuel ->
  length (_children (groups st this)) <= fuel ->
  exists st',
    init fuel this context attached =
      (Ok tt, st',
       map (fun s => Called (SysInit s context) (Ok tt))
           (_systemObjects (groups st this))
       ++ [Called (SysInit systemObj context) (Ok tt);
           Called (SysInit systemObj context) (Ok tt)]
       ++ map (fun c => Called (ChildInit c context) (Ok tt))
              (_children (groups st this))).
Proof.
  intros attached Hsys Hch Hfs Hfc.
  assert (Hlist : _systemObjects (groups attached this)
                  = _systemObjects (groups st this) ++ [systemObj; systemObj]).
  { unfold attached. simpl. rewrite !Nat.eqb_refl. simpl.
    rewrite <- app_assoc. reflexivity. }
  assert (Hchildren : _children (groups attached this)
                      = _children (groups st this)).
  { unfold attached. simpl. rewrite !Nat.eqb_refl. reflexivity. }
  destruct (init_run this context attached fuel) as (st' & Hrun & _).
  - rewrite Hlist. intros s Hin. apply Hsys.
    apply in_app_or in Hin. apply in_or_app.
    destruct Hin as [Hin|[<-|[<-|[]]]]; simpl; auto.
  - rewrite Hchildren. exact Hch.
  - rewrite Hlist, length_app. simpl. lia.
  - rewrite Hchildren. exact Hfc.
  - exists st'. rewrite Hrun, Hlist, Hchildren, map_app, <- app_assoc.
    reflexivity.
Qed.

(** ** draw: the size of the element, a child that throws *)

(** X13.  When its calls return and leave the container alone, [draw]
    begins with [super.draw()], the tag of the element, and the assignment of
    its height and of its width, which are [px] of the maximum height and of
    the maximum width.  The only other assignment to [style] that it makes is
    that of the background: the minimum height and width are never used. *)
Theorem draw_sets_size_from_maximum (this : ref) (st : State) (fuel : nat) :
  (forall c, made_by_draw c = true -> quiet this c) ->
  length (_children (groups st this)) <= fuel ->
  exists st' rest,
    draw fuel this st =
      (Ok tt, st',
       [Called (SuperDraw this) (Ok tt);
        Called (DivSetAttribute (_div (groups st this)) "data-obj-name" "Group")
          (Ok tt);
        Called (StyleSet (_div (groups st this)) "height"
                  (px (_maximumHeight (groups st this)))) (Ok tt);
        Called (StyleSet (_div (groups st this)) "width"
                  (px (_maximumWidth (groups st this)))) (Ok tt)]
       ++ rest) /\
    (styles rest = [] \/
     exists css, styles rest = [(_div (groups st this), "background", css)]).
Proof.
  intros Hq Hfuel.
  destruct (draw_run this (groups st this) Hq fuel st eq_refl Hfuel)
    as (st' & bg & hs & Hrun & _ & Hbg & _).
  exists st'. eexists. split; [exact Hrun|].
  assert (Hturns : forall ps,
            styles (flat_map (turn (_div (groups st this))) ps) = []).
  { induction ps as [|p ps IH]; simpl; auto. }
  unfold styles in *. rewrite flat_map_app, Hturns, app_nil_r.
  unfold background_calls in Hbg.
  destruct (_background (groups st this));
    [destruct (truthy (_drawBackground (groups st this)))|].
  - destruct Hbg as (bitmap & css & ->). right. exists css. reflexivity.
  - subst bg. left. reflexivity.
  - subst bg. left. reflexivity.
Qed.

Section DrawFailing.
Variable this : ref.
Variable g : Group.
Variable failing : gui_ref.
Variable e : exn.
Hypothesis others_quiet :
  forall c, made_by_draw c = true -> c <> ChildDraw failing -> quiet this c.
Hypothesis failing_throws :
  forall st, exists st', ext (ChildDraw failing) st = (Throw e, st').

Lemma other_call (c : call) (st : State) :
  made_by_draw c = true -> c <> ChildDraw failing -> groups st this = g ->
  exists r st',
    external c st = (Ok r, st', [Called c (Ok r)]) /\ groups st' this = g.
Proof.
  intros Hc Hne Hg.
  destruct (external_quiet this c st (others_quiet c Hc Hne))
    as (r & st' & Hext & Hsame).
  exists r, st'. split; [exact Hext|congruence].
Qed.

Lemma other_child_run (child : gui_ref) (st : State) :
  child <> failing -> groups st this = g ->
  exists st' t,
    draw_child this child st = (Ok tt, st', t) /\
    groups st' this = g /\
    exists h, t = turn (_div g) (child, h).
Proof.
  intros Hchild Hg.
  destruct (other_call (ChildDraw child) st eq_refl) as ([] & st1 & H1 & Hg1);
    [congruence|exact Hg|].
  destruct (other_call (ChildGetDiv child) st1 eq_refl)
    as (h & st2 & H2 & Hg2); [discriminate|exact Hg1|].
  destruct (other_call (AppendChild (_div g) h) st2 eq_refl)
    as ([] & st3 & H3 & Hg3); [discriminate|exact Hg2|].
  exists st3, (turn (_div g) (child, h)). split; [|split; [exact Hg3|eauto]].
  unfold draw_child, bind, read.
  rewrite H1. cbv beta iota. rewrite Hg1, H2. cbv beta iota.
  rewrite H3. reflexivity.
Qed.

Lemma failing_child_run (st : State) :
  exists st',
    draw_child this failing st =
      (Throw e, st', [Called (ChildDraw failing) (Throw e)]).
Proof.
  destruct (failing_throws st) as (st' & Hx). exists st'.
  unfold draw_child, bind, external. rewrite Hx. reflexivity.
Qed.

Lemma background_run_before_failure (st : State) :
  groups st this = g ->
  exists st' bg,
    draw_background this st = (Ok tt, st', bg) /\
    groups st' this = g /\
    background_calls g bg.
Proof.
  intros Hg. unfold draw_background, background_calls.
  destruct (_background g) as [background|] eqn:Hb.
  - destruct (truthy (_drawBackground g)) eqn:Hd.
    + destruct (other_call (GetBitmap background) st eq_refl)
        as (bitmap & st1 & H1 & Hg1); [discriminate|exact Hg|].
      destruct (other_call (GetBackgrondCSSAttribute bitmap) st1 eq_refl)
        as (css & st2 & H2 & Hg2); [discriminate|exact Hg1|].
      destruct (other_call (StyleSet (_div g) "background" css) st2 eq_refl)
        as ([] & st3 & H3 & Hg3); [discriminate|exact Hg2|].
      exists st3. eexists.
      split; [|split; [exact Hg3|exists bitmap, css; reflexivity]].
      unfold bind at 1. unfold read at 1. cbv beta iota. rewrite Hg, Hb, Hd.
      unfold bind, read. rewrite H1. cbv beta iota. rewrite Hg1, H2.
      cbv beta iota. rewrite H3. reflexivity.
    + exists st, []. split; [|auto].
      unfold bind, read. cbv beta iota. rewrite Hg, Hb, Hd. reflexivity.
  - exists st, []. split; [|auto].
    unfold bind, read. cbv beta iota. rewrite Hg, Hb. reflexivity.
Qed.

Lemma draw_run_until_failure (fuel : nat) (st : State)
    (before after : list gui_ref) :
  groups st this = g ->
  _children g = before ++ failing :: after ->
  ~ In failing before ->
  length before < fuel ->
  exists st' bg hs,
    draw fuel this st =
      (Throw e, st',
       ([Called (SuperDraw this) (Ok tt);
         Called (DivSetAttribute (_div g) "data-obj-name" "Group") (Ok tt);
         Called (StyleSet (_div g) "height" (px (_maximumHeight g))) (Ok tt);
         Called (StyleSet (_div g) "width" (px (_maximumWidth g))) (Ok tt)]
        ++ bg)
       ++ flat_map (turn (_div g)) (combine before hs)
       ++ [Called (ChildDraw failing) (Throw e)]) /\
    background_calls g bg /\
    length hs = length before.
Proof.
  intros Hg Hchildren Hnotin Hfuel.
  destruct (other_call (SuperDraw this) st eq_refl)
    as ([] & st1 & H1 & Hg1); [discriminate|exact Hg|].
  destruct (other_call (DivSetAttribute (_div g) "data-obj-name" "Group")
              st1 eq_refl) as ([] & st2 & H2 & Hg2); [discriminate|exact Hg1|].
  destruct (other_call (StyleSet (_div g) "height" (px (_maximumHeight g)))
              st2 eq_refl) as ([] & st3 & H3 & Hg3); [discriminate|exact Hg2|].
  destruct (other_call (StyleSet (_div g) "width" (px (_maximumWidth g)))
              st3 eq_refl) as ([] & st4 & H4 & Hg4); [discriminate|exact Hg3|].
  destruct (background_run_before_failure st4 Hg4)
    as (st5 & bg & H5 & Hg5 & Hbg).
  destruct (for_of_throw (fun st' => groups st' this = g)
              (fun child t => exists h, t = turn (_div g) (child, h))
              (fun st' => _children (groups st' this))
              (draw_child this) before failing after e
              [Called (ChildDraw failing) (Throw e)])
    with (fuel := fuel) (i := 0) (st := st5)
    as (st6 & ts & H6 & HF).
  { intros st' ->. exact Hchildren. }
  { intros child st' Hin Hg'. apply other_child_run; [|exact Hg'].
    intros ->. contradiction. }
  { intros st' _. apply failing_child_run. }
  { exact Hg5. }
  { lia. }
  { simpl. exact Hfuel. }
  simpl in HF. destruct (concat_turns _ _ _ HF) as (hs & Hlen & Hts).
  exists st6, bg, hs. split; [|auto].
  unfold draw, bind, read.
  rewrite H1. cbv beta iota. rewrite Hg1, H2. cbv beta iota.
  rewrite Hg2, H3. cbv beta iota. rewrite Hg3, H4. cbv beta iota.
  rewrite H5. cbv beta iota. rewrite H6, Hts.
  rewrite <- app_assoc. reflexivity.
Qed.

End DrawFailing.

(** X14.  When the [draw] of a child throws, [draw] throws the same
    exception at once: the children before it have been drawn and appended,
    in order; the failing child is not appended; the children after it are
    neither drawn nor appended. *)
Theorem draw_stops_at_failing_child (this : ref) (st : State) (fuel : nat)
    (before : list gui_ref) (failing : gui_ref) (after : list gui_ref)
    (e : exn) :
  _children (groups st this) = before ++ failing :: after ->
  ~ In failing before ->
  (forall c, made_by_draw c = true -> c <> ChildDraw failing -> quiet this c) ->
  (forall st', exists st'', ext (ChildDraw failing) st' = (Throw e, st'')) ->
  length before < fuel ->
  exists st' pre handles,
    draw fuel this st =
      (Throw e, st',
       pre ++ flat_map (turn (_div (groups st this))) (combine before handles)
           ++ [Called (ChildDraw failing) (Throw e)]) /\
    length handles = length before /\
    existsb is_child_call pre = false /\
    appends (pre ++ flat_map (turn (_div (groups st this)))
                      (combine before handles)
                 ++ [Called (ChildDraw failing) (Throw e)])
      = map (pair (_div (groups st this))) handles.
Proof.
  intros Hchildren Hnotin Hq Hthrow Hfuel.
  destruct (draw_run_until_failure this (groups st this) failing e Hq Hthrow
              fuel st before after eq_refl Hchildren Hnotin Hfuel)
    as (st' & bg & hs & Hrun & Hbg & Hlen).
  destruct (background_calls_cases _ _ Hbg) as (Hnochild & Hnoapp & _).
  eexists st', _, hs. split; [exact Hrun|]. split; [exact Hlen|]. split.
  - rewrite existsb_app, Hnochild. reflexivity.
  - unfold appends in *. rewrite !flat_map_app.
    fold (appends (flat_map (turn (_div (groups st this))) (combine before hs))).
    rewrite (appends_turns _ _ _ Hlen), Hnoapp. simpl.
    rewrite app_nil_r. reflexivity.
Qed.

End MoreProperties.

(** * The further properties on the small skin *)

Section MoreOnTheDemo.
Import Demo.
#[local] Existing Instance Demo.types.
#[local] Existing Instance Demo.collaborators.
Local Open Scope method_scope.

Lemma addChild_then_getobject_witness :
  result (getobject 3 "PLAY" (final (addChild 3 (ROther 1) st0)))
    = Ok (ROther 1) /\
  getId_of st0 (RGroup 11) = Some "Deck" /\
  (forall obj,
     result (getobject 3 "Deck" (final (addChild 3 (RGroup 11) st0)))
       <> Ok obj).
Proof.
  split; [|split; [reflexivity|]].
  - apply (addChild_then_getobject 3 (ROther 1) "PLAY" st0).
    + simpl. intros o [<-|[]]. discriminate.
    + reflexivity.
  - apply (addChild_then_getobject 3 (RGroup 11) "Deck" st0).
    + simpl. intros o [<-|[]]. discriminate.
    + discriminate.
Defined.

Lemma addChild_keeps_lookups_witness :
  getId_of st0 (RGroup 10) = Some "stop" /\
  result (getobject 0 "Stop" (final (addChild 0 (RGroup 10) st0)))
    = Ok (ROther 2).
Proof.
  split; [reflexivity|].
  apply (addChild_keeps_lookups 0 0 (RGroup 10) "Stop" st0 (ROther 2)).
  reflexivity.
Defined.

Lemma getobject_skips_undefined_ids_witness :
  In (ROther 9) (_children (groups (final (addChild 0 (ROther 9) st0)) 0)) /\
  result (getobject 0 "undefined" (final (addChild 0 (ROther 9) st0)))
    <> Ok (ROther 9).
Proof.
  split; [simpl; auto|].
  apply (getobject_skips_undefined_ids 0 "undefined"
           (final (addChild 0 (ROther 9) st0)) (ROther 9)).
  reflexivity.
Defined.

Lemma getobject_never_finds_capital_id_witness :
  In (RGroup 11) (_children (groups st0 9)) /\
  result (getobject 9 "deck" st0) <> Ok (RGroup 11).
Proof.
  split; [simpl; auto|].
  apply (getobject_never_finds_capital_id 9 "deck" st0 (RGroup 11) "Deck");
    reflexivity.
Defined.

Lemma lowercase_beforehand_witness :
  setXmlAttr 0 (toLowerCase "Maximum_W") "200" st0
    = setXmlAttr 0 "Maximum_W" "200" st0 /\
  (forall obj,
     result (getobject 0 (toLowerCase "Maximum_W") st0) = Ok obj <->
     result (getobject 0 "Maximum_W" st0) = Ok obj).
Proof.
  apply (lowercase_beforehand 0 "Maximum_W" "200" st0). reflexivity.
Defined.

Lemma setXmlAttr_error_propagates_witness :
  setXmlAttr 0 "DrawBackground" "yes" st0 =
    (Throw (Error "Expected bool value to be 0 or 1"), served st0,
     [Called (SuperSetXmlAttr 0 (toLowerCase "DrawBackground") "yes") (Ok false)])
  /\
  setXmlAttr 0 "maximum_w" "wide" st0 =
    (Throw (Error "not a number"), served st0,
     [Called (SuperSetXmlAttr 0 (toLowerCase "maximum_w") "wide") (Ok false)]).
Proof.
  split.
  - apply (proj1 (proj2 (setXmlAttr_error_propagates 0 "DrawBackground" "yes"
                           st0 (served st0)
                           (Error "Expected bool value to be 0 or 1")))).
    + reflexivity.
    + reflexivity.
    + reflexivity.
  - apply (proj2 (proj2 (setXmlAttr_error_propagates 0 "maximum_w" "wide"
                           st0 (served st0) (Error "not a number")))).
    + reflexivity.
    + simpl. auto.
    + reflexivity.
Defined.

Lemma setXmlAttr_frame_witness :
  _children (groups (final (setXmlAttr 0 "Background" "bg.png" st0)) 0)
    = _children (groups (served st0) 0) /\
  _systemObjects (groups (final (setXmlAttr 0 "Background" "bg.png" st0)) 0)
    = _systemObjects (groups (served st0) 0).
Proof.
  assert (Hext : ext (SuperSetXmlAttr 0 (toLowerCase "Background") "bg.png") st0
                 = (Ok false, served st0)) by reflexivity.
  destruct (setXmlAttr_frame 0 "Background" "bg.png" st0 (served st0)
              (Ok false) Hext)
    as (_ & _ & _ & Hchildren & Hsys & _).
  split; [exact Hchildren|exact Hsys].
Defined.

Lemma setXmlAttr_writes_one_field_witness :
  _instanceId (groups (final (setXmlAttr 9 "Background" "bg.png" st0)) 9)
    = Some "Nine" /\
  _drawBackground (groups (final (setXmlAttr 12 "Background" "x.png" st0)) 12)
    = Some true.
Proof.
  assert (Hext9 : ext (SuperSetXmlAttr 9 (toLowerCase "Background") "bg.png") st0
                  = (Ok false, served st0)) by reflexivity.
  assert (Hext12 : ext (SuperSetXmlAttr 12 (toLowerCase "Background") "x.png") st0
                   = (Ok false, served st0)) by reflexivity.
  split.
  - apply (proj1 (setXmlAttr_writes_one_field 9 "Background" "bg.png" st0
                    (served st0) (Ok false) Hext9)).
    discriminate.
  - apply (proj1 (proj2 (proj2 (setXmlAttr_writes_one_field 12 "Background"
                    "x.png" st0 (served st0) (Ok false) Hext12)))).
    discriminate.
Defined.

Lemma back_refs_listed_kept_witness :
  back_refs_listed st0 /\
  back_refs_listed (final (addSystemObject 3 7 st0)) /\
  _parentGroup (sysobjs (final (addSystemObject 3 7 st0)) 7) = Some 3.
Proof.
  assert (H0 : back_refs_listed st0) by (intros s g H; discriminate H).
  split; [exact H0|]. split; [|reflexivity].
  apply (proj1 (back_refs_listed_kept 3 7 (ROther 1) st0 H0)).
Defined.

Lemma init_after_double_attach_witness :
  exists st',
    init 2 3 42 (final ((addSystemObject 3 7 ;; addSystemObject 3 7) st0)) =
      (Ok tt, st',
       map (fun s => Called (SysInit s 42) (Ok tt))
           (_systemObjects (groups st0 3))
       ++ [Called (SysInit 7 42) (Ok tt); Called (SysInit 7 42) (Ok tt)]
       ++ map (fun c => Called (ChildInit c 42) (Ok tt))
              (_children (groups st0 3))).
Proof.
  apply (@init_after_double_attach types collaborators 3 7 42 st0 2).
  - intros s _. apply demo_quiet. exact I.
  - intros c _. apply demo_quiet. exact I.
  - simpl. lia.
  - simpl. lia.
Defined.

Lemma draw_sets_size_from_maximum_witness :
  exists st' rest,
    draw 1 12 st0 =
      (Ok tt, st',
       [Called (SuperDraw 12) (Ok tt);
        Called (DivSetAttribute (_div (groups st0 12)) "data-obj-name" "Group")
          (Ok tt);
        Called (StyleSet (_div (groups st0 12)) "height"
                  (px (_maximumHeight (groups st0 12)))) (Ok tt);
        Called (StyleSet (_div (groups st0 12)) "width"
                  (px (_maximumWidth (groups st0 12)))) (Ok tt)]
       ++ rest) /\
    (styles rest = [] \/
     exists css, styles rest = [(_div (groups st0 12), "background", css)]).
Proof.
  apply (draw_sets_size_from_maximum 12 st0 1).
  - apply demo_draw_quiet.
  - simpl. lia.
Defined.

(** The size of group 12 as the element receives it. *)
Example size_of_group_12 :
  styles (trace (draw 1 12 st0)) =
    [(12, "height", "50px"); (12, "width", "200px");
     (12, "background", "url(bg.png)")]%string.
Proof. reflexivity. Qed.

End MoreOnTheDemo.

Section OnTheFaultyDemo.
Import Demo.
#[local] Existing Instance Demo.types.
#[local] Existing Instance Faulty.collaborators.
Local Open Scope method_scope.

Lemma init_stops_at_failing_system_object_witness :
  exists st',
    init 2 0 42 st0 =
      (Throw (Error "init failed"), st',
       map (fun x => Called (SysInit x 42) (Ok tt)) [7]
       ++ [Called (SysInit 8 42) (Throw (Error "init failed"))]).
Proof.
  apply (@init_stops_at_failing_system_object types Faulty.collaborators
           0 42 st0 2 [7] 8 [] (Error "init failed")).
  - reflexivity.
  - intros x [<-|[]] st. eexists _, _. split; reflexivity.
  - intros st'. eexists. reflexivity.
  - simpl. lia.
Defined.

Lemma faulty_draw_quiet (this : ref) (c : call) :
  made_by_draw c = true -> c <> ChildDraw (ROther 2) -> quiet this c.
Proof.
  intros Hc Hne st. destruct c; try discriminate;
    try (simpl; eexists _, _; split; reflexivity).
  destruct child as [r|r].
  - simpl. eexists _, _. split; reflexivity.
  - simpl. destruct (Nat.eqb_spec r 2) as [->|_]; [contradiction|].
    eexists _, _. split; reflexivity.
Qed.

Lemma draw_stops_at_failing_child_witness :
  exists st' pre handles,
    draw 3 0 st0 =
      (Throw (Error "draw failed"), st',
       pre ++ flat_map (turn (_div (groups st0 0)))
                (combine [ROther 1] handles)
           ++ [Called (ChildDraw (ROther 2)) (Throw (Error "draw failed"))]) /\
    length handles = length [ROther 1] /\
    existsb is_child_call pre = false /\
    appends (pre ++ flat_map (turn (_div (groups st0 0)))
                      (combine [ROther 1] handles)
                 ++ [Called (ChildDraw (ROther 2))
                       (Throw (Error "draw failed"))])
      = map (pair (_div (groups st0 0))) handles.
Proof.
  apply (@draw_stops_at_failing_child types Faulty.collaborators
           0 st0 3 [ROther 1] (ROther 2) [RGroup 3] (Error "draw failed")).
  - reflexivity.
  - simpl. intros [H|[]]. discriminate H.
  - apply faulty_draw_quiet.
  - intros st'. eexists. reflexivity.
  - simpl. lia.
Defined.

(** Only the first child reaches the element of group 0. *)
Example one_child_appended_before_the_failure :
  appends (trace (draw 3 0 st0)) = [(0, 101)] /\
  result (draw 3 0 st0) = Throw (Error "draw failed").
Proof. split; reflexivity. Qed.

End OnTheFaultyDemo.

(** * Properties of cli.ts *)

Module CliFacts.
Import Cli.

Section Facts.
Context {T : Cli.Types} {E : Cli.Externals}.
Local Open Scope method_scope.

(** Case analysis on every call a command makes. *)
Ltac run_calls :=
  repeat (simpl;
          match goal with
          | |- context [ext ?c ?w] =>
              let r := fresh "r" in
              let w' := fresh "w" in
              destruct (ext c w) as [r w'] eqn:?;
              destruct r as [?| |]
          end).

(** X15.  Once the handler exists, [withHandler] disposes of it exactly when
    the callback has ended, whether it returned or threw, and that is the
    last call it makes.  If [dispose] returns, the outcome is that of the
    callback; if it throws, its exception is the outcome. *)
Theorem withHandler_disposes (cb : Handler -> Command unit)
    (w w1 : World) (h : Handler) :
  ext NewDiscordEventHandler w = (Ok h, w1) ->
  result (cb h w1) <> OutOfFuel ->
  exists r w2,
    ext (Dispose h) (final (cb h w1)) = (r, w2) /\
    trace (withHandler cb w) =
      Called NewDiscordEventHandler (Ok h) :: trace (cb h w1)
        ++ [Called (Dispose h) r] /\
    final (withHandler cb w) = w2 /\
    (r = Ok tt -> result (withHandler cb w) = result (cb h w1)) /\
    (forall e, r = Throw e -> result (withHandler cb w) = Throw e).
Proof.
  intros Hnew Hends.
  unfold withHandler, bind, external, try_finally. rewrite Hnew.
  destruct (cb h w1) as [[rc wc] tc]. unfold result, final, trace in *.
  simpl in *. destruct (ext (Dispose h) wc) as [r w2]. exists r, w2.
  destruct rc as [[]| |]; [| |contradiction];
    destruct r as [[]| |]; simpl; repeat split; try reflexivity;
    try discriminate; intros; congruence.
Qed.

(** X16.  [withDiscordClient] destroys the client once the callback has
    ended, whatever its outcome, and that is its last call; but when the
    login fails the callback is not run and the client is not destroyed. *)
Theorem withDiscordClient_destroys_after_login (cb : Client -> Command unit)
    (w w1 : World) (client : Client) :
  ext NewDiscordClient w = (Ok client, w1) ->
  (forall w2,
     ext (Login client discordToken) w1 = (Ok tt, w2) ->
     result (cb client w2) <> OutOfFuel ->
     exists r w3,
       ext (Destroy client) (final (cb client w2)) = (r, w3) /\
       trace (withDiscordClient cb w) =
         Called NewDiscordClient (Ok client)
         :: Called (Login client discordToken) (Ok tt)
         :: trace (cb client w2) ++ [Called (Destroy client) r] /\
       (r = Ok tt -> result (withDiscordClient cb w) = result (cb client w2)))
  /\
  (forall e w2,
     ext (Login client discordToken) w1 = (Throw e, w2) ->
     withDiscordClient cb w =
       (Throw e, w2,
        [Called NewDiscordClient (Ok client);
         Called (Login client discordToken) (Throw e)])).
Proof.
  intros Hnew. split.
  - intros w2 Hlogin Hends.
    unfold withDiscordClient, bind, external, try_finally.
    rewrite Hnew, Hlogin.
    destruct (cb client w2) as [[rc wc] tc]. unfold result, final, trace in *.
    simpl in *. destruct (ext (Destroy client) wc) as [r w3]. exists r, w3.
    destruct rc as [[]| |]; [| |contradiction];
      destruct r as [[]| |]; simpl; repeat split; try reflexivity;
      try discriminate; intros; congruence.
  - intros e w2 Hlogin.
    unfold withDiscordClient, bind, external. rewrite Hnew, Hlogin.
    reflexivity.
Qed.

(** X17.  [share] does only what was asked for: without [--twitter] and
    [--instagram] it throws before any call is made; it tweets only with
    [--twitter] and posts to Instagram only with [--instagram], and then the
    skin it was given. *)
Theorem share_only_what_was_asked (md5 : option string)
    (twitter instagram : option bool) (w : World) :
  (truthy twitter = false -> truthy instagram = false ->
   share md5 twitter instagram w =
     (Throw (Error "Expected at least one of --twitter or --instagram"), w, []))
  /\
  (forall client m r,
     In (Called (Tweet client m) r) (trace (share md5 twitter instagram w)) ->
     truthy twitter = true /\ m = md5)
  /\
  (forall client m r,
     In (Called (Insta client m) r) (trace (share md5 twitter instagram w)) ->
     truthy instagram = true /\ m = md5).
Proof.
  split; [|split].
  - intros Ht Hi. unfold share. rewrite Ht, Hi. reflexivity.
  - intros client m r.
    unfold share, withDiscordClient, bind, external, try_finally, trace.
    destruct (truthy twitter), (truthy instagram); run_calls; simpl;
      intros Hin;
      repeat match goal with
      | H : _ \/ _ |- _ => destruct H
      | H : False |- _ => contradiction H
      | H : Called _ _ = Called _ _ |- _ => inversion H; clear H
      end; subst; auto.
  - intros client m r.
    unfold share, withDiscordClient, bind, external, try_finally, trace.
    destruct (truthy twitter), (truthy instagram); run_calls; simpl;
      intros Hin;
      repeat match goal with
      | H : _ \/ _ |- _ => destruct H
      | H : False |- _ => contradiction H
      | H : Called _ _ = Called _ _ |- _ => inversion H; clear H
      end; subst; auto.
Qed.

(** X18.  When the tweet fails, [share] does not go on to Instagram: the
    client is destroyed and the exception of the tweet is thrown. *)
Theorem share_stops_when_tweet_fails (md5 : option string)
    (twitter instagram : option bool) (w w1 w2 w3 w4 : World)
    (client : Client) (e : exn) :
  truthy twitter = true ->
  ext NewDiscordClient w = (Ok client, w1) ->
  ext (Login client discordToken) w1 = (Ok tt, w2) ->
  ext (Tweet client md5) w2 = (Throw e, w3) ->
  ext (Destroy client) w3 = (Ok tt, w4) ->
  share md5 twitter instagram w =
    (Throw e, w4,
     [Called NewDiscordClient (Ok client);
      Called (Login client discordToken) (Ok tt);
      Called (Tweet client md5) (Throw e);
      Called (Destroy client) (Ok tt)]).
Proof.
  intros Ht Hnew Hlogin Htweet Hdestroy.
  unfold share, withDiscordClient, bind, external, try_finally.
  rewrite Ht. simpl. rewrite Hnew, Hlogin, Htweet, Hdestroy. reflexivity.
Qed.

(** X19.  Whether the parsing of the command line returns or throws, [main]
    then destroys the database connection, and closes the logger if and only
    if that destruction returned; when both return, the outcome of [main] is
    the outcome of the parsing. *)
Theorem main_always_cleans_up (w w1 : World) (r : outcome unit) :
  ext ParseAsync w = (r, w1) ->
  r <> OutOfFuel ->
  exists r2 w2,
    ext KnexDestroy w1 = (r2, w2) /\
    match r2 with
    | Ok _ =>
        exists r3 w3,
          ext LoggerClose w2 = (r3, w3) /\
          trace (main w) =
            [Called ParseAsync r; Called KnexDestroy r2; Called LoggerClose r3] /\
          (r3 = Ok tt -> result (main w) = r)
    | _ => trace (main w) = [Called ParseAsync r; Called KnexDestroy r2]
    end.
Proof.
  intros Hparse Hends.
  unfold main, try_finally, bind, external, trace, result. rewrite Hparse.
  destruct (ext KnexDestroy w1) as [r2 w2]. exists r2, w2.
  split; [reflexivity|].
  destruct r2 as [[]| |].
  - destruct (ext LoggerClose w2) as [r3 w3]. exists r3, w3.
    split; [reflexivity|].
    destruct r as [[]| |]; [| |contradiction];
      destruct r3 as [[]| |]; simpl; split; try reflexivity;
      intros; try discriminate; reflexivity.
  - destruct r as [[]| |]; [| |contradiction]; reflexivity.
  - destruct r as [[]| |]; [| |contradiction]; reflexivity.
Qed.

(** X20.  No handler is left behind: in every run of [process-uploads] and
    of [scrape-twitter] that ends, whatever fails on the way, the handlers
    disposed of are the handlers created, in the same order. *)
Theorem handlers_are_disposed (errored likes milestones followers : option bool)
    (w : World) :
  (result (process_uploads errored w) <> OutOfFuel ->
   disposed (trace (process_uploads errored w))
     = created (trace (process_uploads errored w)))
  /\
  (result (scrape_twitter likes milestones followers w) <> OutOfFuel ->
   disposed (trace (scrape_twitter likes milestones followers w))
     = created (trace (scrape_twitter likes milestones followers w))).
Proof.
  split.
  - unfold process_uploads, withHandler, bind, external, try_finally,
      result, trace, disposed, created.
    destruct (truthy errored); run_calls; simpl; intros H;
      try reflexivity; exfalso; apply H; reflexivity.
  - unfold scrape_twitter, withHandler, bind, external, try_finally,
      result, trace, disposed, created.
    destruct (truthy likes), (truthy milestones), (truthy followers);
      run_calls; simpl; intros H;
      try reflexivity; exfalso; apply H; reflexivity.
Qed.

End Facts.

(** The properties on the run of [Cli.Demo]. *)
Section OnTheDemo.
#[local] Existing Instance Cli.Demo.types.
#[local] Existing Instance Cli.Demo.externals.
Local Open Scope method_scope.

Lemma withHandler_disposes_witness :
  exists r w2,
    ext (Dispose 0) (final (external (PopularTweets 0) 1)) = (r, w2) /\
    trace (withHandler (fun h => external (PopularTweets h)) 0) =
      Called NewDiscordEventHandler (Ok 0)
      :: trace (external (PopularTweets 0) 1) ++ [Called (Dispose 0) r] /\
    final (withHandler (fun h => external (PopularTweets h)) 0) = w2 /\
    (r = Ok tt ->
     result (withHandler (fun h => external (PopularTweets h)) 0)
       = result (external (PopularTweets 0) 1)) /\
    (forall e, r = Throw e ->
     result (withHandler (fun h => external (PopularTweets h)) 0) = Throw e).
Proof.
  apply (@withHandler_disposes Cli.Demo.types Cli.Demo.externals
           (fun h => external (PopularTweets h)) 0 1 0).
  - reflexivity.
  - discriminate.
Defined.

Lemma withDiscordClient_destroys_after_login_witness :
  exists r w3,
    ext (Destroy 0) (final (external (Tweet 0 (Some "bad")) 2)) = (r, w3) /\
    trace (withDiscordClient (fun c => external (Tweet c (Some "bad"))) 0) =
      Called NewDiscordClient (Ok 0)
      :: Called (Login 0 discordToken) (Ok tt)
      :: trace (external (Tweet 0 (Some "bad")) 2) ++ [Called (Destroy 0) r] /\
    (r = Ok tt ->
     result (withDiscordClient (fun c => external (Tweet c (Some "bad"))) 0)
       = result (external (Tweet 0 (Some "bad")) 2)).
Proof.
  apply (proj1 (@withDiscordClient_destroys_after_login
                  Cli.Demo.types Cli.Demo.externals
                  (fun c => external (Tweet c (Some "bad"))) 0 1 0 eq_refl) 2).
  - reflexivity.
  - discriminate.
Defined.

Lemma share_only_what_was_asked_witness :
  share (Some "abc") None (Some false) 0 =
    (Throw (Error "Expected at least one of --twitter or --instagram"), 0, []).
Proof.
  apply (proj1 (@share_only_what_was_asked Cli.Demo.types Cli.Demo.externals
                  (Some "abc") None (Some false) 0)); reflexivity.
Defined.

Lemma share_stops_when_tweet_fails_witness :
  share (Some "bad") (Some true) (Some true) 0 =
    (Throw (Error "tweet failed"), 4,
     [Called NewDiscordClient (Ok 0);
      Called (Login 0 discordToken) (Ok tt);
      Called (Tweet 0 (Some "bad")) (Throw (Error "tweet failed"));
      Called (Destroy 0) (Ok tt)]).
Proof.
  apply (@share_stops_when_tweet_fails Cli.Demo.types Cli.Demo.externals
           (Some "bad") (Some true) (Some true) 0 1 2 3 4 0
           (Error "tweet failed")); reflexivity.
Defined.

Lemma main_always_cleans_up_witness :
  trace (main 0) =
    [Called ParseAsync (Throw (Error "unknown command"));
     Called KnexDestroy (Ok tt); Called LoggerClose (Ok tt)] /\
  result (main 0) = Throw (Error "unknown command").
Proof.
  destruct (@main_always_cleans_up Cli.Demo.types Cli.Demo.externals
              0 1 (Throw (Error "unknown command")))
    as (r2 & w2 & Hknex & Hrest); [reflexivity|discriminate|].
  injection Hknex as <- <-.
  destruct Hrest as (r3 & w3 & Hlogger & Htrace & Hresult).
  injection Hlogger as <- <-.
  split; [exact Htrace|apply Hresult; reflexivity].
Defined.

Lemma handlers_are_disposed_witness :
  disposed (trace (scrape_twitter (Some true) (Some true) (Some true) 0))
    = created (trace (scrape_twitter (Some true) (Some true) (Some true) 0)) /\
  created (trace (scrape_twitter (Some true) (Some true) (Some true) 0))
    = [1; 4].
Proof.
  split; [|reflexivity].
  apply (proj2 (@handlers_are_disposed Cli.Demo.types Cli.Demo.externals
                  None (Some true) (Some true) (Some true) 0)).
  discriminate.
Defined.

End OnTheDemo.

End CliFacts.
